(** * Verification of the monorepo scaffolder [generate-monorepo.py]

    The script resolves a repository root from its own location, creates a
    fixed list of directories, writes a fixed table of placeholder files
    (skipping the ones that exist unless [--force] is given) and writes the
    root [package.json].

    The embedding follows the script function by function.  The file system
    the script acts on is an explicit state: a finite map from paths to
    nodes.  The [pathlib] and [os] calls the script makes ([Path.exists],
    [Path.mkdir(parents=True, exist_ok=True)], [Path.write_text]) are
    modelled as operations of a small state, output and exception monad.  A
    Python exception aborts the run, and the effects made before it stay in
    the file system.

    Scope of the file-system model: regular files and directories.
    Symbolic links, permissions and special files are not modelled. *)

From Stdlib Require Import Ascii String.
From stdpp Require Import base option list strings gmap fin_maps.

Open Scope string_scope.
Open Scope list_scope.

(** ** Paths *)

(** A resolved absolute path is the list of its components, the last
    component first: [/home/u/repo] is [["repo"; "u"; "home"]] and [[]] is
    the root directory [/].  With this orientation [Path.parent] is the tail
    and [Path.name] is the head, and the ancestors of a path are its
    suffixes. *)
Abbreviation Path := (list string).

(** [Path.parent]; the parent of [/] is [/]. *)
Definition parent (p : Path) : Path := tail p.

(** [Path.name]; the name of [/] is the empty string. *)
Definition name (p : Path) : string :=
  match p with
  | [] => EmptyString
  | c :: _ => c
  end.

(** [str.split(sep)] for a one-character separator. *)
Fixpoint split_on (sep : ascii) (s : string) : list string :=
  match s with
  | EmptyString => [EmptyString]
  | String c s' =>
      if Ascii.eqb c sep then EmptyString :: split_on sep s'
      else match split_on sep s' with
           | [] => [String c EmptyString]
           | w :: ws => String c w :: ws
           end
  end.

(** The components [pathlib] keeps of a relative path string: empty
    components and [.] are dropped. *)
Definition parts (rel : string) : list string :=
  filter (λ c, c ≠ EmptyString ∧ c ≠ ".") (split_on "/" rel).

Definition is_absolute (rel : string) : bool :=
  match rel with
  | String c _ => Ascii.eqb c "/"
  | EmptyString => false
  end.

(** [root / rel]: the components of [rel] are appended below [root]; an
    absolute [rel] replaces [root]. *)
Definition joinpath (root : Path) (rel : string) : Path :=
  if is_absolute rel then rev (parts rel) else rev (parts rel) ++ root.

Infix "//" := joinpath (at level 40, left associativity).

(** [str(path)]. *)
Definition path_str (p : Path) : string :=
  match p with
  | [] => "/"
  | _ => String.concat EmptyString (map (λ c, "/" +:+ c) (rev p))
  end.

(** ** The file system *)

Inductive node : Type :=
  | Dir
  | File (content : string).

#[export] Instance node_eq_dec : EqDecision node.
Proof. solve_decision. Defined.

Abbreviation FS := (gmap Path node).

(** The result of a lookup is a regular file. *)
Definition is_file (o : option node) : Prop :=
  match o with
  | Some (File _) => True
  | _ => False
  end.

#[export] Instance is_file_dec o : Decision (is_file o).
Proof. destruct o as [[|?]|]; simpl; apply _. Defined.

(** A well-formed file system has its root directory, and every node lies
    in a directory. *)
Definition wf (fs : FS) : Prop :=
  fs !! ([] : Path) = Some Dir ∧
  ∀ (c : string) (p : Path), is_Some (fs !! (c :: p)) → fs !! p = Some Dir.

(** ** Exceptions, outcomes and the monad of the script *)

(** The [OSError] subclasses the calls of the script raise in this model. *)
Inductive OSError : Type :=
  | FileNotFoundError
  | FileExistsError
  | NotADirectoryError
  | IsADirectoryError.

#[export] Instance OSError_eq_dec : EqDecision OSError.
Proof. solve_decision. Defined.

Inductive result (A : Type) : Type :=
  | Ok (a : A)
  | Raised (e : OSError).
Arguments Ok {A} a.
Arguments Raised {A} e.

(** What a computation leaves behind: its result, the file system after it
    (also when it raised) and the lines it printed. *)
Record outcome (A : Type) : Type := Outcome {
  res : result A;
  fs_after : FS;
  printed : list string
}.
Arguments Outcome {A} _ _ _.
Arguments res {A} _.
Arguments fs_after {A} _.
Arguments printed {A} _.

Definition M (A : Type) : Type := FS → outcome A.

Definition ret {A} (a : A) : M A := λ fs, Outcome (Ok a) fs [].

Definition raise {A} (e : OSError) : M A := λ fs, Outcome (Raised e) fs [].

Definition bind {A B} (m : M A) (f : A → M B) : M B := λ fs,
  let o := m fs in
  match res o with
  | Ok a =>
      let o' := f a (fs_after o) in
      Outcome (res o') (fs_after o') (printed o ++ printed o')
  | Raised e => Outcome (Raised e) (fs_after o) (printed o)
  end.

(** The monad is used through stdpp's notations [x ← m; k] and [m ;; k]. *)
#[export] Instance M_ret : MRet M := @ret.
#[export] Instance M_bind : MBind M := λ A B f m, bind m f.

(** [print(line)]. *)
Definition print (line : string) : M unit := λ fs, Outcome (Ok tt) fs [line].

(** The run reached its end without an exception. *)
Definition completes {A} (o : outcome A) : Prop :=
  match res o with
  | Ok _ => True
  | Raised _ => False
  end.

#[export] Instance completes_dec {A} (o : outcome A) : Decision (completes o).
Proof. unfold completes. destruct (res o); apply _. Defined.

(** [for x in xs: body(x)]. *)
Fixpoint for_each {A} (xs : list A) (body : A → M unit) : M unit :=
  match xs with
  | [] => ret tt
  | x :: xs' => body x ;; for_each xs' body
  end.

(** ** The calls into [os] and [pathlib] *)

(** [Path.exists()]: some node is at the path. *)
Definition path_exists (p : Path) : M bool := λ fs,
  Outcome (Ok (bool_decide (is_Some (fs !! p)))) fs [].

(** [Path.is_dir()]. *)
Definition is_dir (p : Path) (fs : FS) : bool :=
  bool_decide (fs !! p = Some Dir).

(** [os.mkdir(p)]: the parent must be a directory and [p] must be free. *)
Definition os_mkdir (p : Path) (fs : FS) : OSError + FS :=
  match fs !! parent p with
  | None => inl FileNotFoundError
  | Some (File _) => inl NotADirectoryError
  | Some Dir =>
      match fs !! p with
      | Some _ => inl FileExistsError
      | None => inr (<[p := Dir]> fs)
      end
  end.

(** [Path.mkdir(parents=False, exist_ok=exist_ok)]: an [OSError] other than
    [FileNotFoundError] is swallowed when [exist_ok] is set and the path is
    a directory. *)
Definition mkdir_single (exist_ok : bool) (p : Path) : M unit := λ fs,
  match os_mkdir p fs with
  | inr fs' => Outcome (Ok tt) fs' []
  | inl FileNotFoundError => raise FileNotFoundError fs
  | inl e => if negb exist_ok || negb (is_dir p fs) then raise e fs else ret tt fs
  end.

(** [Path.mkdir(parents=True, exist_ok=exist_ok)]: on [FileNotFoundError]
    the parent is made first, with [parents=True, exist_ok=True], and then
    the path itself with [parents=False]; [/] has no parent to make. *)
Fixpoint mkdir_parents (exist_ok : bool) (p : Path) : M unit := λ fs,
  match os_mkdir p fs with
  | inr fs' => Outcome (Ok tt) fs' []
  | inl FileNotFoundError =>
      match p with
      | [] => raise FileNotFoundError fs
      | _ :: par => (mkdir_parents true par ;; mkdir_single exist_ok p) fs
      end
  | inl e => if negb exist_ok || negb (is_dir p fs) then raise e fs else ret tt fs
  end.

(** [Path.mkdir(parents=..., exist_ok=...)]. *)
Definition mkdir (parents exist_ok : bool) (p : Path) : M unit :=
  if parents then mkdir_parents exist_ok p else mkdir_single exist_ok p.

(** [Path.write_text(content, encoding="utf-8")]: opens the path for
    writing, which creates or truncates a regular file in an existing
    directory and fails on a directory; the content is the byte string. *)
Definition write_text (p : Path) (content : string) : M unit := λ fs,
  match fs !! parent p with
  | None => raise FileNotFoundError fs
  | Some (File _) => raise NotADirectoryError fs
  | Some Dir =>
      match fs !! p with
      | Some Dir => raise IsADirectoryError fs
      | _ => Outcome (Ok tt) (<[p := File content]> fs) []
      end
  end.

(** ** Configuration: the literal tables of the script *)

(** The double quote character, written [|] in the literals below. *)
Definition dquote : ascii := "034"%char.

Definition newline : string := String "010"%char EmptyString.

Fixpoint with_quotes (s : string) : string :=
  match s with
  | EmptyString => EmptyString
  | String c s' => String (if Ascii.eqb c "|" then dquote else c) (with_quotes s')
  end.

(** The value of [dedent(literal)]: the lines of the literal without their
    common margin, each ended by a newline.  No literal of the script
    contains [|]. *)
Definition text (lines : list string) : string :=
  String.concat EmptyString (map (λ l, with_quotes l +:+ newline) lines).

Definition DIRS : list string := [
  "apps";
  "apps/web";
  "apps/web/src";
  "apps/api";
  "apps/api/src";
  "apps/orchestrator";
  "apps/orchestrator/src";
  "packages";
  "packages/schema";
  "packages/schema/src";
  "packages/schema/test";
  "packages/core";
  "packages/core/src";
  "packages/core/test";
  "packages/content-model";
  "packages/content-model/src";
  "packages/content-model/test";
  "packages/design-system";
  "packages/design-system/src";
  "packages/design-system/test";
  "infra";
  "infra/terraform";
  "infra/k8s";
  "docs";
  "docs/specs";
  ".github";
  ".github/workflows";
  "scripts"
].

Definition FILES : list (string * string) := [
  (".gitignore", text [
      "__pycache__/";
      ".pytest_cache/";
      ".DS_Store";
      "node_modules/";
      "dist/";
      "build/";
      ".next/";
      ".env";
      ".env.local";
      ".venv/";
      "*.log";
      ".turbo/";
      "coverage/";
      ".vitest/"]);

  ("apps/README.md", text [
      "# Apps";
      EmptyString;
      "This folder contains runnable applications (frontends, backends, workers).";
      "- `web/`          ‚Äì Interactive CV UI (Next.js 15)";
      "- `api/`          ‚Äì Backend API / orchestration (Fastify)";
      "- `orchestrator/` ‚Äì Multi-agent workflow coordination"]);

  ("apps/web/README.md", text [
      "# Web App (Interactive CV)";
      EmptyString;
      "Frontend application for the interactive CV/r√©sum√©.";
      "- Tech: Next.js 15, React Server Components, TypeScript";
      "- Entry: `src/app/page.tsx`";
      EmptyString;
      "## Development";
      EmptyString;
      "```bash";
      "pnpm dev";
      "```"]);

  ("apps/web/package.json", text [
      "{";
      "  |name|: |@in-midst-my-life/web|,";
      "  |version|: |0.1.0|,";
      "  |private|: true,";
      "  |scripts|: {";
      "    |dev|: |next dev|,";
      "    |build|: |next build|,";
      "    |start|: |next start|,";
      "    |lint|: |next lint|,";
      "    |typecheck|: |tsc --noEmit|";
      "  },";
      "  |dependencies|: {";
      "    |next|: |15.1.0|,";
      "    |react|: |^19.0.0|,";
      "    |react-dom|: |^19.0.0|,";
      "    |@in-midst-my-life/schema|: |workspace:*|";
      "  },";
      "  |devDependencies|: {";
      "    |@types/node|: |^20|,";
      "    |@types/react|: |^19|,";
      "    |@types/react-dom|: |^19|,";
      "    |typescript|: |^5.3.3|";
      "  }";
      "}"]);

  ("apps/api/README.md", text [
      "# API Service";
      EmptyString;
      "Backend service powering the interactive CV/r√©sum√©.";
      "- Tech: Fastify, TypeScript";
      "- Entrypoint: `src/index.ts`";
      "- Responsibilities: APIs, data orchestration, VC verification"]);

  ("apps/api/package.json", text [
      "{";
      "  |name|: |@in-midst-my-life/api|,";
      "  |version|: |0.1.0|,";
      "  |private|: true,";
      "  |scripts|: {";
      "    |dev|: |tsx watch src/index.ts|,";
      "    |build|: |tsc|,";
      "    |start|: |node dist/index.js|,";
      "    |typecheck|: |tsc --noEmit|";
      "  },";
      "  |dependencies|: {";
      "    |fastify|: |^4.25.0|,";
      "    |@fastify/cors|: |^8.4.2|,";
      "    |@in-midst-my-life/schema|: |workspace:*|,";
      "    |@in-midst-my-life/core|: |workspace:*|";
      "  },";
      "  |devDependencies|: {";
      "    |@types/node|: |^20|,";
      "    |tsx|: |^4.7.0|,";
      "    |typescript|: |^5.3.3|";
      "  }";
      "}"]);

  ("apps/api/src/index.ts", text [
      "import Fastify from 'fastify';";
      "import cors from '@fastify/cors';";
      EmptyString;
      "const fastify = Fastify({";
      "  logger: true";
      "});";
      EmptyString;
      "fastify.register(cors);";
      EmptyString;
      "fastify.get('/health', async () => {";
      "  return { status: 'ok' };";
      "});";
      EmptyString;
      "const start = async () => {";
      "  try {";
      "    await fastify.listen({ port: 3001, host: '0.0.0.0' });";
      "  } catch (err) {";
      "    fastify.log.error(err);";
      "    process.exit(1);";
      "  }";
      "};";
      EmptyString;
      "start();"]);

  ("apps/orchestrator/README.md", text [
      "# Orchestrator Service";
      EmptyString;
      "Multi-agent workflow coordination system.";
      "- Tech: TypeScript, Node";
      "- Agents: Architect, Implementer, Reviewer, Tester, Maintainer";
      "- Integration: GitHub webhooks and CI";
      EmptyString;
      "See WORK-005-autonomous-code-growth.md for complete specification."]);

  ("packages/README.md", text [
      "# Shared Packages";
      EmptyString;
      "Reusable libraries shared across apps:";
      "- `schema/`        ‚Äì Canonical data model (Zod schemas, TypeScript types)";
      "- `core/`          ‚Äì Domain logic and shared utilities";
      "- `content-model/` ‚Äì Narrative generation and mask transformation";
      "- `agents/`        ‚Äì AI agent definitions and coordination"]);

  ("packages/schema/README.md", text [
      "# @in-midst-my-life/schema";
      EmptyString;
      "Core data schemas for the interactive CV system.";
      EmptyString;
      "## Usage";
      EmptyString;
      "```typescript";
      "import { ProfileSchema, MaskSchema } from '@in-midst-my-life/schema';";
      EmptyString;
      "const profile = ProfileSchema.parse(profileData);";
      "```";
      EmptyString;
      "See SPEC-001-data-schema.md for complete specification."]);

  ("packages/schema/package.json", text [
      "{";
      "  |name|: |@in-midst-my-life/schema|,";
      "  |version|: |0.1.0|,";
      "  |main|: |./src/index.ts|,";
      "  |types|: |./src/index.ts|,";
      "  |scripts|: {";
      "    |test|: |vitest run|,";
      "    |test:watch|: |vitest|,";
      "    |typecheck|: |tsc --noEmit|";
      "  },";
      "  |dependencies|: {";
      "    |zod|: |^3.22.4|";
      "  },";
      "  |devDependencies|: {";
      "    |typescript|: |^5.3.3|,";
      "    |vitest|: |^1.1.0|";
      "  }";
      "}"]);

  ("packages/schema/src/index.ts", text [
      "// Core schema exports";
      "export * from './identity';";
      "export * from './profile';";
      "export * from './mask';";
      EmptyString;
      "// Re-export zod for convenience";
      "export { z } from 'zod';"]);

  ("packages/core/README.md", text [
      "# Core Package";
      EmptyString;
      "Holds core domain logic, entities, and services for the interactive CV."]);

  ("packages/core/package.json", text [
      "{";
      "  |name|: |@in-midst-my-life/core|,";
      "  |version|: |0.1.0|,";
      "  |main|: |./src/index.ts|,";
      "  |types|: |./src/index.ts|,";
      "  |scripts|: {";
      "    |test|: |vitest run|,";
      "    |test:watch|: |vitest|,";
      "    |typecheck|: |tsc --noEmit|";
      "  },";
      "  |dependencies|: {";
      "    |@in-midst-my-life/schema|: |workspace:*|";
      "  },";
      "  |devDependencies|: {";
      "    |typescript|: |^5.3.3|,";
      "    |vitest|: |^1.1.0|";
      "  }";
      "}"]);

  ("packages/content-model/README.md", text [
      "# Content Model Package";
      EmptyString;
      "Narrative generation and mask transformation logic.";
      EmptyString;
      "Responsibilities:";
      "- Map schema entities to narrative blocks";
      "- Handle mask/stage/epoch selection";
      "- Generate context-specific presentations"]);

  ("infra/README.md", text [
      "# Infrastructure";
      EmptyString;
      "Infrastructure-as-code and deployment configuration:";
      "- `terraform/` ‚Äì Cloud resources";
      "- `k8s/`       ‚Äì Kubernetes manifests"]);

  ("infra/terraform/main.tf", text [
      "# Terraform root module placeholder for interactive CV infrastructure.";
      EmptyString;
      "terraform {";
      "  required_version = |>= 1.0.0|";
      "}";
      EmptyString;
      "# TODO: Configure providers as needed"]);

  ("docs/README.md", text [
      "# Documentation";
      EmptyString;
      "High-level documentation for the interactive CV system.";
      EmptyString;
      "See the parent directory for design documents organized as:";
      "- FOUND-* (Foundational concepts)";
      "- SPEC-* (Specifications)";
      "- ARCH-* (Architecture)";
      "- PLAN-* (Planning)";
      "- WORK-* (Workflows)";
      "- ORCH-* (Orchestration)";
      "- META-* (Meta-organization)"]);

  (".github/README.md", text [
      "# GitHub Configuration";
      EmptyString;
      "GitHub-specific configuration, including Actions workflows.";
      EmptyString;
      "See ARCH-003-cicd-pipeline.md for CI/CD specifications."]);

  ("scripts/README.md", text [
      "# Scripts";
      EmptyString;
      "Utility and automation scripts for this monorepo.";
      "- `generate-monorepo.py` ‚Äì Scaffolds the directory tree and placeholders"])
].

Definition ROOT_PACKAGE_JSON : string := text [
  "{";
  "  |name|: |in-midst-my-life|,";
  "  |version|: |0.1.0|,";
  "  |private|: true,";
  "  |workspaces|: [";
  "    |apps/*|,";
  "    |packages/*|";
  "  ],";
  "  |scripts|: {";
  "    |dev|: |turbo run dev|,";
  "    |build|: |turbo run build|,";
  "    |test|: |turbo run test|,";
  "    |lint|: |turbo run lint|,";
  "    |typecheck|: |turbo run typecheck|";
  "  },";
  "  |devDependencies|: {";
  "    |turbo|: |^1.11.0|,";
  "    |typescript|: |^5.3.3|,";
  "    |prettier|: |^3.1.1|,";
  "    |eslint|: |^8.56.0|";
  "  }";
  "}"].

(** The markers that start the printed lines, as the script has them. *)
Definition DIR_MARK : string := "üìÅ".
Definition SKIP_MARK : string := "‚è≠Ô∏è".
Definition WRITE_MARK : string := "‚úÖ".
Definition ROOT_MARK : string := "üìÇ".
Definition DONE_MARK : string := "‚ú®".

(** ** Implementation *)

(** [detect_repo_root()], from [script_path = Path(__file__).resolve()]. *)
Definition detect_repo_root (script_path : Path) : Path :=
  if String.eqb (name (parent script_path)) "scripts"
  then parent (parent script_path)
  else parent script_path.

(** The lines the three operations print, as their f-strings build them. *)
Definition dir_line (rel : string) : string := DIR_MARK +:+ " " +:+ rel.
Definition skip_line (rel : string) : string := SKIP_MARK +:+ "  SKIP (exists): " +:+ rel.
Definition write_line (rel : string) : string := WRITE_MARK +:+ " WRITE: " +:+ rel.

(** One turn of the loop of [ensure_dirs]. *)
Definition ensure_dir (root : Path) (rel : string) : M unit :=
  let path := root // rel in
  mkdir true true path ;;
  print (dir_line rel).

(** [ensure_dirs(root)]. *)
Definition ensure_dirs (root : Path) : M unit :=
  for_each DIRS (ensure_dir root).

(** One turn of the loop of [write_files]; [continue] ends the turn. *)
Definition write_file (root : Path) (force : bool) (entry : string * string) : M unit :=
  let '(rel, content) := entry in
  let path := root // rel in
  ex ← path_exists path;
  if ex && negb force then
    print (skip_line rel)
  else
    mkdir true true (parent path) ;;
    write_text path content ;;
    print (write_line rel).

(** [write_files(root, force)]. *)
Definition write_files (root : Path) (force : bool) : M unit :=
  for_each FILES (write_file root force).

(** [create_root_package_json(root, force)]. *)
Definition create_root_package_json (root : Path) (force : bool) : M unit :=
  let path := root // "package.json" in
  ex ← path_exists path;
  if ex && negb force then
    print (skip_line "package.json")
  else
    let content := ROOT_PACKAGE_JSON in
    write_text path content ;;
    print (write_line "package.json").

Fixpoint repeat_string (s : string) (n : nat) : string :=
  match n with
  | O => EmptyString
  | S n' => s +:+ repeat_string s n'
  end.

(** [main()], with [force] the value of [args.force]. *)
Definition main (script_path : Path) (force : bool) : M unit :=
  print (repeat_string "=" 60) ;;
  print "  in-midst-my-life Monorepo Generator" ;;
  print (repeat_string "=" 60) ;;
  print EmptyString ;;
  let repo_root := detect_repo_root script_path in
  print (ROOT_MARK +:+ " Repo root: " +:+ path_str repo_root) ;;
  print EmptyString ;;
  print "Creating directories..." ;;
  ensure_dirs repo_root ;;
  print EmptyString ;;
  print "Writing files..." ;;
  write_files repo_root force ;;
  print EmptyString ;;
  print "Creating root package.json..." ;;
  create_root_package_json repo_root force ;;
  print EmptyString ;;
  print (repeat_string "=" 60) ;;
  print (DONE_MARK +:+ " Scaffolding complete!") ;;
  print (repeat_string "=" 60) ;;
  print EmptyString ;;
  print "Next steps:" ;;
  print "  1. cd into the repo root" ;;
  print "  2. Run: pnpm install" ;;
  print "  3. Review QUICKSTART.md for implementation guide" ;;
  print "  4. Begin Phase 1: Implement schema package" ;;
  print EmptyString.

(** * Vocabulary of the properties *)

(** ** The files of a run and the shape of the tables *)

(** The files of a run: the file table and the root manifest. *)
Definition ALL_FILES : list (string * string) :=
  FILES ++ [("package.json", ROOT_PACKAGE_JSON)].

(** The components of a table path, last first. *)
Definition rparts (rel : string) : Path := rev (parts rel).

(** Facts about the literal tables, each checked by evaluation: the paths
    are relative and not empty; one path has one content; no file path is a
    directory path, an ancestor of one, or an ancestor of a file path. *)
Definition tables_relative : Prop :=
  Forall (λ rel, is_absolute rel = false ∧ rparts rel ≠ []) (DIRS ++ ALL_FILES.*1).

Definition tables_functional : Prop :=
  Forall (λ e, Forall (λ e', rparts e.1 = rparts e'.1 → e.2 = e'.2) ALL_FILES) ALL_FILES.

Definition tables_separate : Prop :=
  Forall (λ e,
    Forall (λ d, ¬ rparts e.1 `suffix_of` rparts d) DIRS ∧
    Forall (λ e', ¬ rparts e.1 `suffix_of` tail (rparts e'.1)) FILES) ALL_FILES.

(** The directory of every table file is the root or a listed directory. *)
Definition tables_parents_listed : Prop :=
  Forall (λ e : string * string,
    tail (rparts e.1) = [] ∨ Exists (λ d, tail (rparts e.1) = rparts d) DIRS) FILES.

(** The path and its ancestors, the path first. *)
Fixpoint suffixes (p : Path) : list Path :=
  p :: match p with
       | [] => []
       | _ :: par => suffixes par
       end.

(** ** Relations between the file system before and after *)

(** A relation between the file system before and after every run of a
    computation, whatever its result. *)
Definition step_rel (R : relation FS) {A} (m : M A) : Prop :=
  ∀ fs, R fs (fs_after (m fs)).

(** What [mkdir] may do below a path [p]: add directories at free places
    among [p] and its ancestors. *)
Definition adds_dirs (p : Path) : relation FS := λ fs fs',
  ∀ q : Path, fs' !! q = fs !! q ∨
              (fs !! q = None ∧ fs' !! q = Some Dir ∧ q `suffix_of` p).

(** Well-formedness is kept. *)
Definition keeps_wf : relation FS := λ fs fs', wf fs → wf fs'.

(** Places where a run may make a directory: the listed directories, the
    parents of the table files, and their ancestors. *)
Definition made_dir (root q : Path) : Prop :=
  (∃ rel, rel ∈ DIRS ∧ q `suffix_of` root // rel) ∨
  (∃ rel content, (rel, content) ∈ FILES ∧ q `suffix_of` parent (root // rel)).

(** Places where a run may write a file, with what it writes there. *)
Definition made_file (root q : Path) (content : string) : Prop :=
  ∃ rel, (rel, content) ∈ ALL_FILES ∧ q = root // rel.

(** Every place keeps its node, or was free and got a directory the run
    makes, or was no directory and got a file the run writes; without
    [force] a file is written at a free place only. *)
Definition effect (root : Path) (force : bool) : relation FS := λ fs fs',
  ∀ q : Path,
    fs' !! q = fs !! q ∨
    (fs !! q = None ∧ fs' !! q = Some Dir ∧ made_dir root q) ∨
    ((force = true ∨ fs !! q = None) ∧ fs !! q ≠ Some Dir ∧
     ∃ content, fs' !! q = Some (File content) ∧ made_file root q content).

(** The paths a run is about: the listed directories, the table files, the
    manifest, and their ancestors. *)
Definition in_scope (root q : Path) : Prop :=
  ∃ rel, (rel ∈ DIRS ∨ rel ∈ FILES.*1 ∨ rel = "package.json") ∧
         q `suffix_of` root // rel.

(** ** The run without its messages *)

(** The three operations of [main], without its messages. *)
Definition scaffold (root : Path) (force : bool) : M unit :=
  ensure_dirs root ;; write_files root force ;; create_root_package_json root force.

(** [o'] is [o] with more lines printed. *)
Definition with_messages (o o' : outcome unit) : Prop :=
  res o = res o' ∧ fs_after o = fs_after o' ∧ printed o ⊆ printed o'.

(** The states between the operations of a run. *)
Abbreviation after_dirs root fs := (fs_after (ensure_dirs root fs)).

Abbreviation after_files root force fs :=
  (fs_after (write_files root force (after_dirs root fs))).

(** A computation that, run again in a well-formed state that holds what
    its first run left, ends as the first run did and changes nothing. *)
Definition stable (m : M unit) : Prop :=
  ∀ fs g, wf fs → wf g → fs_after (m fs) ⊆ g →
    res (m g) = res (m fs) ∧ fs_after (m g) = g.

(** ** Conditions on the state before a run *)

(** No regular file stands where the run needs a directory. *)
Definition unobstructed (root : Path) (fs : FS) : Prop :=
  ∀ q, made_dir root q → ¬ is_file (fs !! q).

(** No directory stands where the run writes a file. *)
Definition files_writable (root : Path) (fs : FS) : Prop :=
  ∀ rel content, (rel, content) ∈ ALL_FILES → fs !! (root // rel) ≠ Some Dir.

(** The same for [ensure_dirs] alone. *)
Definition dirs_unobstructed (root : Path) (fs : FS) : Prop :=
  ∀ rel q, rel ∈ DIRS → q `suffix_of` root // rel → ¬ is_file (fs !! q).

(** The state a run completes from. *)
Definition ready (root : Path) (force : bool) (fs : FS) : Prop :=
  wf fs ∧ unobstructed root fs ∧ (force = true → files_writable root fs).

(** Nothing is below [root]. *)
Definition empty_below (root : Path) (fs : FS) : Prop :=
  ∀ q, root `suffix_of` q → q ≠ root → fs !! q = None.

(** ** What the tables hold *)

(** The content the file table gives for a path. *)
Fixpoint lookup_content (rel : string) (table : list (string * string)) : string :=
  match table with
  | [] => EmptyString
  | (k, v) :: table' => if String.eqb k rel then v else lookup_content rel table'
  end.

Definition table_content (rel : string) : string := lookup_content rel ALL_FILES.

(** [needle] occurs in [hay]. *)
Fixpoint contains (needle hay : string) : bool :=
  String.prefix needle hay ||
  match hay with
  | EmptyString => false
  | String _ hay' => contains needle hay'
  end.

(** The workspace member globs as the manifest declares them. *)
Definition WORKSPACES : string := text [
  "  |workspaces|: [";
  "    |apps/*|,";
  "    |packages/*|";
  "  ],"].

(** ** Sample states *)

(** The script at [/home/u/repo/scripts/generate-monorepo.py]. *)
Definition sample_root : Path := ["repo"; "u"; "home"].

Definition sample_script : Path :=
  "generate-monorepo.py" :: "scripts" :: sample_root.

(** A repository that holds the script and nothing else. *)
Definition sample_fs : FS :=
  list_to_map [
    ([], Dir);
    (["home"], Dir);
    (["u"; "home"], Dir);
    (sample_root, Dir);
    ("scripts" :: sample_root, Dir);
    (sample_script, File "#!/usr/bin/env python3")
  ].

(** An empty directory [/srv/new] with the script run from outside it. *)
Definition empty_root : Path := ["new"; "srv"].

Definition empty_root_fs : FS :=
  list_to_map [([], Dir); (["srv"], Dir); (empty_root, Dir)].

(** The repository with a [README.md] of the user under [apps]. *)
Definition edited_fs : FS :=
  <[sample_root // "apps/README.md" := File "my own notes"]>
    (<[sample_root // "apps" := Dir]> sample_fs).

(** The repository with a directory named [.gitignore]. *)
Definition gitignore_dir_fs : FS :=
  <[sample_root // ".gitignore" := Dir]> sample_fs.

(** The repository with a regular file named [apps]. *)
Definition apps_file_fs : FS :=
  <[sample_root // "apps" := File "not a directory"]> sample_fs.

(** ** Closed forms of the result and of the output of a run *)

(** The content a run writes at a path, when the path is that of a file of
    the table. *)
Fixpoint file_at (root q : Path) (table : list (string * string)) : option string :=
  match table with
  | [] => None
  | (rel, content) :: table' =>
      if decide (root // rel = q) then Some content else file_at root q table'
  end.

(** The path is a listed directory or an ancestor of one. *)
Definition listed_dir (root q : Path) : Prop :=
  Exists (λ rel, q `suffix_of` root // rel) DIRS.

(** The node at a path after a run that completes, from the state before
    it: a file of the run holds its literal content, unless it existed and
    [force] is off; a listed directory or an ancestor of one is a
    directory; every other path is as it was. *)
Definition final_node (root : Path) (force : bool) (fs : FS) (q : Path) : option node :=
  match file_at root q ALL_FILES with
  | Some content =>
      if force then Some (File content)
      else match fs !! q with
           | Some n => Some n
           | None => Some (File content)
           end
  | None => if decide (listed_dir root q) then Some Dir else fs !! q
  end.

(** The line a run prints for a file: skipped when the path existed before
    the run and [force] is off, written otherwise. *)
Definition report_line (root : Path) (force : bool) (fs : FS) (rel : string) : string :=
  if bool_decide (is_Some (fs !! (root // rel))) && negb force
  then skip_line rel
  else write_line rel.

(** What [ensure_dirs] and [write_files] print when they complete. *)
Definition dirs_output : list string := dir_line <$> DIRS.

Definition files_output (root : Path) (force : bool) (fs : FS) : list string :=
  (λ e : string * string, report_line root force fs e.1) <$> FILES.

(** What [main] prints when it completes. *)
Definition main_output (script_path : Path) (force : bool) (fs : FS) : list string :=
  let root := detect_repo_root script_path in
  [repeat_string "=" 60;
   "  in-midst-my-life Monorepo Generator";
   repeat_string "=" 60;
   EmptyString;
   ROOT_MARK +:+ " Repo root: " +:+ path_str root;
   EmptyString;
   "Creating directories..."] ++
  dirs_output ++
  [EmptyString; "Writing files..."] ++
  files_output root force fs ++
  [EmptyString;
   "Creating root package.json...";
   report_line root force fs "package.json";
   EmptyString;
   repeat_string "=" 60;
   DONE_MARK +:+ " Scaffolding complete!";
   repeat_string "=" 60;
   EmptyString;
   "Next steps:";
   "  1. cd into the repo root";
   "  2. Run: pnpm install";
   "  3. Review QUICKSTART.md for implementation guide";
   "  4. Begin Phase 1: Implement schema package";
   EmptyString].

(** [out] is what the computation prints when it completes, and what it
    prints before it raises is the beginning of [out]. *)
Definition outputs (m : M unit) (fs : FS) (out : list string) : Prop :=
  printed (m fs) `prefix_of` out ∧ (completes (m fs) → printed (m fs) = out).

(** Only directories were added, at listed directories and their
    ancestors. *)
Definition adds_listed_dirs (root : Path) : relation FS := λ fs fs',
  ∀ q : Path, fs' !! q = fs !! q ∨
              (fs !! q = None ∧ fs' !! q = Some Dir ∧ listed_dir root q).

(** What every step of a run keeps: the effect of a run, and
    well-formedness. *)
Definition run_rel (root : Path) (force : bool) : relation FS := λ fs fs',
  effect root force fs fs' ∧ keeps_wf fs fs'.

(** The node at a path is kept. *)
Definition same_at (p : Path) : relation FS := λ fs fs', fs' !! p = fs !! p.

(** The state in which the turns of the table files in [rest] are still to
    come: their paths are distinct and as in [fs0]. *)
Definition files_pending (root : Path) (fs0 : FS)
    (rest : list (string * string)) (fs : FS) : Prop :=
  (∀ e, e ∈ rest → e ∈ FILES) ∧
  NoDup (rparts <$> rest.*1) ∧
  ∀ e : string * string, e ∈ rest → fs !! (root // e.1) = fs0 !! (root // e.1).

(** The lines [main] prints besides the reports of its three operations. *)
Definition messages (script_path : Path) : list string :=
  [repeat_string "=" 60;
   "  in-midst-my-life Monorepo Generator";
   EmptyString;
   ROOT_MARK +:+ " Repo root: " +:+ path_str (detect_repo_root script_path);
   "Creating directories...";
   "Writing files...";
   "Creating root package.json...";
   DONE_MARK +:+ " Scaffolding complete!";
   "Next steps:";
   "  1. cd into the repo root";
   "  2. Run: pnpm install";
   "  3. Review QUICKSTART.md for implementation guide";
   "  4. Begin Phase 1: Implement schema package"].

(** The second outcome prints nothing but lines of [extra] and lines of the
    first. *)
Definition only_adds (extra : list string) (o o' : outcome unit) : Prop :=
  ∀ l, l ∈ printed o' → l ∈ extra ∨ l ∈ printed o.

(** The file paths of the run are distinct. *)
Definition tables_distinct : Prop := NoDup (rparts <$> ALL_FILES.*1).

(** The script keeps the name it has in the repository. *)
Definition SCRIPT_NAME : string := "generate-monorepo.py".

(** No table path starts with the name of the script, under the root or
    under [scripts]. *)
Definition tables_spare_script : Prop :=
  Forall (λ rel, ¬ [SCRIPT_NAME] `suffix_of` rparts rel ∧
                 ¬ [SCRIPT_NAME; "scripts"] `suffix_of` rparts rel)
         (DIRS ++ ALL_FILES.*1).

(** * Properties *)

(** ** The model on concrete inputs *)

Example parts_nested : parts "apps/web/src" = ["apps"; "web"; "src"].
Proof. reflexivity. Qed.

Example joinpath_nested :
  sample_root // "apps/web/src" = ["src"; "web"; "apps"; "repo"; "u"; "home"].
Proof. reflexivity. Qed.

Example path_str_sample : path_str sample_root = "/home/u/repo".
Proof. reflexivity. Qed.

Example detect_from_scripts : detect_repo_root sample_script = sample_root.
Proof. reflexivity. Qed.

Example gitignore_first_lines :
  String.prefix ("__pycache__/" +:+ newline +:+ ".pytest_cache/" +:+ newline)
                (table_content ".gitignore") = true.
Proof. reflexivity. Qed.

Example mkdir_makes_ancestors :
  fs_after (mkdir true true (sample_root // "infra/terraform") sample_fs)
    !! (sample_root // "infra") = Some Dir.
Proof. by vm_compute. Qed.

Example mkdir_single_needs_parent :
  res (mkdir false true (sample_root // "infra/terraform") sample_fs)
    = Raised FileNotFoundError.
Proof. by vm_compute. Qed.

Example write_text_on_directory :
  res (write_text (sample_root // "scripts") "x" sample_fs) = Raised IsADirectoryError.
Proof. by vm_compute. Qed.

Example first_run_prints_write :
  write_line "apps/README.md" ∈ printed (main sample_script false sample_fs).
Proof. apply (bool_decide_unpack _). by vm_compute. Qed.

(** ** The monad *)

Section monad_facts.
Context {A B : Type}.
Implicit Types (m : M A) (f : A → M B) (fs : FS).

Lemma res_bind m f fs :
  res ((m ≫= f) fs) =
    match res (m fs) with
    | Ok a => res (f a (fs_after (m fs)))
    | Raised e => Raised e
    end.
Proof. unfold mbind, M_bind, bind. by destruct (res (m fs)). Qed.

Lemma fs_after_bind m f fs :
  fs_after ((m ≫= f) fs) =
    match res (m fs) with
    | Ok a => fs_after (f a (fs_after (m fs)))
    | Raised _ => fs_after (m fs)
    end.
Proof. unfold mbind, M_bind, bind. by destruct (res (m fs)). Qed.

Lemma printed_bind m f fs :
  printed ((m ≫= f) fs) =
    match res (m fs) with
    | Ok a => printed (m fs) ++ printed (f a (fs_after (m fs)))
    | Raised _ => printed (m fs)
    end.
Proof. unfold mbind, M_bind, bind. by destruct (res (m fs)). Qed.

Lemma completes_bind m f fs :
  completes ((m ≫= f) fs) ↔
    ∃ a, res (m fs) = Ok a ∧ completes (f a (fs_after (m fs))).
Proof.
  unfold completes. rewrite res_bind.
  destruct (res (m fs)) as [a|e]; split.
  - intros H. by exists a.
  - by intros (a' & [= <-] & H).
  - done.
  - by intros (a' & [=] & _).
Qed.
End monad_facts.

Lemma completes_unit (o : outcome unit) : completes o ↔ res o = Ok tt.
Proof.
  unfold completes. destruct (res o) as [[]|e]; split; try done.
Qed.

Lemma completes_seq {B} (m : M unit) (k : M B) fs :
  completes ((m ;; k) fs) ↔ completes (m fs) ∧ completes (k (fs_after (m fs))).
Proof.
  rewrite completes_bind, completes_unit. split.
  - by intros ([] & ? & ?).
  - intros [? ?]. by exists tt.
Qed.

Section step_rel_facts.
Context (R : relation FS) `{!PreOrder R}.

Lemma step_rel_ret {A} (a : A) : step_rel R (ret a).
Proof. intros fs. simpl. reflexivity. Qed.

Lemma step_rel_raise {A} e : step_rel R (@raise A e).
Proof. intros fs. simpl. reflexivity. Qed.

Lemma step_rel_print line : step_rel R (print line).
Proof. intros fs. simpl. reflexivity. Qed.

Lemma step_rel_path_exists p : step_rel R (path_exists p).
Proof. intros fs. simpl. reflexivity. Qed.

Lemma step_rel_bind {A B} (m : M A) (f : A → M B) :
  step_rel R m → (∀ a, step_rel R (f a)) → step_rel R (m ≫= f).
Proof.
  intros Hm Hf fs. rewrite fs_after_bind.
  destruct (res (m fs)) as [a|e]; [|apply Hm].
  etrans; [apply Hm | apply Hf].
Qed.

Lemma step_rel_for_each {A} (xs : list A) (body : A → M unit) :
  (∀ x, x ∈ xs → step_rel R (body x)) → step_rel R (for_each xs body).
Proof.
  induction xs as [|x xs IH]; intros Hbody; simpl.
  - apply step_rel_ret.
  - apply step_rel_bind.
    + apply Hbody. left.
    + intros _. apply IH. intros y Hy. apply Hbody. by right.
Qed.

(** In a loop that completes, every turn ran to its end in a state the
    loop reached, and what it printed is part of what the loop printed. *)
Lemma for_each_turn {A} (xs : list A) (body : A → M unit) fs x :
  (∀ y, y ∈ xs → step_rel R (body y)) →
  completes (for_each xs body fs) → x ∈ xs →
  ∃ fs1, R fs fs1 ∧ completes (body x fs1) ∧
         R (fs_after (body x fs1)) (fs_after (for_each xs body fs)) ∧
         printed (body x fs1) ⊆ printed (for_each xs body fs).
Proof.
  revert fs. induction xs as [|y xs IH]; intros fs Hbody Hc Hx.
  { by apply elem_of_nil in Hx. }
  simpl in Hc. apply completes_seq in Hc as [Hy Hrest].
  assert (Hres : res (body y fs) = Ok tt) by by apply completes_unit.
  simpl. rewrite fs_after_bind, printed_bind, Hres.
  apply elem_of_cons in Hx as [->|Hx].
  - exists fs. split; [reflexivity|]. split; [done|]. split.
    + apply (step_rel_for_each xs body). intros z Hz. apply Hbody. by right.
    + intros l Hl. apply elem_of_app. by left.
  - destruct (IH (fs_after (body y fs))) as (fs1 & H1 & H2 & H3 & H4);
      [intros z Hz; apply Hbody; by right|done|done|].
    exists fs1. split; [|split; [done|split; [done|]]].
    + etrans; [|exact H1]. apply Hbody. left.
    + intros l Hl. apply elem_of_app. right. by apply H4.
Qed.
End step_rel_facts.

(** A loop whose turns all complete and change nothing completes and
    changes nothing. *)
Lemma for_each_noop {A : Type} (xs : list A) (body : A → M unit) fs :
  (∀ x, x ∈ xs → completes (body x fs) ∧ fs_after (body x fs) = fs) →
  completes (for_each xs body fs) ∧ fs_after (for_each xs body fs) = fs.
Proof.
  induction xs as [|x xs IH]; intros Hbody; simpl; [done|].
  destruct (Hbody x) as [Hc Hfs]; [left|].
  rewrite completes_seq, fs_after_bind.
  assert (Hres : res (body x fs) = Ok tt) by by apply completes_unit.
  rewrite Hres, Hfs. destruct IH as [? ?]; [|done].
  intros y Hy. apply Hbody. by right.
Qed.

(** A loop completes when an invariant of its turns makes each of them
    complete. *)
Lemma for_each_completes {A : Type} (Inv : FS → Prop) (xs : list A) (body : A → M unit) fs :
  (∀ x fs, x ∈ xs → Inv fs → completes (body x fs) ∧ Inv (fs_after (body x fs))) →
  Inv fs → completes (for_each xs body fs) ∧ Inv (fs_after (for_each xs body fs)).
Proof.
  revert fs. induction xs as [|x xs IH]; intros fs Hbody HI; simpl; [done|].
  destruct (Hbody x fs) as [Hc HI']; [left|done|].
  rewrite completes_seq, fs_after_bind.
  assert (Hres : res (body x fs) = Ok tt) by by apply completes_unit.
  rewrite Hres. destruct (IH (fs_after (body x fs))) as [? ?]; [|done|done].
  intros y fs' Hy. apply Hbody. by right.
Qed.

(** ** The file-system calls *)

#[export] Instance adds_dirs_preorder p : PreOrder (adds_dirs p).
Proof.
  split.
  - intros fs q. by left.
  - intros fs1 fs2 fs3 H12 H23 q.
    destruct (H12 q) as [E12|(N1 & D2 & S)], (H23 q) as [E23|(N2 & D3 & S')].
    + left. congruence.
    + right. split; [congruence|done].
    + right. split; [done|]. split; [congruence|done].
    + congruence.
Qed.

Lemma adds_dirs_mono p p' fs fs' :
  p `suffix_of` p' → adds_dirs p fs fs' → adds_dirs p' fs fs'.
Proof.
  intros Hp H q. destruct (H q) as [?|(? & ? & ?)]; [by left|right].
  split; [done|]. split; [done|]. by etrans.
Qed.

Lemma os_mkdir_inr p fs fs' :
  os_mkdir p fs = inr fs' →
  fs !! parent p = Some Dir ∧ fs !! p = None ∧ fs' = <[p := Dir]> fs.
Proof.
  unfold os_mkdir. destruct (fs !! parent p) as [[|?]|]; try done.
  destruct (fs !! p); [done|]. by intros [= <-].
Qed.

Lemma adds_dirs_insert p fs : fs !! p = None → adds_dirs p fs (<[p := Dir]> fs).
Proof.
  intros Hp q. destruct (decide (p = q)) as [<-|Hne].
  - right. by rewrite lookup_insert_eq.
  - left. by rewrite lookup_insert_ne.
Qed.

Lemma mkdir_single_adds exist_ok p :
  step_rel (adds_dirs p) (mkdir_single exist_ok p).
Proof.
  intros fs. unfold mkdir_single.
  destruct (os_mkdir p fs) as [e|fs'] eqn:E.
  - destruct e; simpl; try reflexivity;
      destruct (negb exist_ok || negb (is_dir p fs)); simpl; reflexivity.
  - apply os_mkdir_inr in E as (_ & Hp & ->). simpl. by apply adds_dirs_insert.
Qed.

Lemma mkdir_parents_unfold exist_ok p fs :
  mkdir_parents exist_ok p fs =
    match os_mkdir p fs with
    | inr fs' => Outcome (Ok tt) fs' []
    | inl FileNotFoundError =>
        match p with
        | [] => raise FileNotFoundError fs
        | _ :: par => (mkdir_parents true par ;; mkdir_single exist_ok p) fs
        end
    | inl e => if negb exist_ok || negb (is_dir p fs) then raise e fs else ret tt fs
    end.
Proof. by destruct p. Qed.

Lemma mkdir_parents_adds exist_ok p :
  step_rel (adds_dirs p) (mkdir_parents exist_ok p).
Proof.
  revert exist_ok. induction p as [|c par IH]; intros exist_ok fs;
    rewrite mkdir_parents_unfold;
    destruct (os_mkdir _ fs) as [e|fs'] eqn:E.
  - destruct e; simpl; try reflexivity;
      destruct (negb exist_ok || negb (is_dir [] fs)); simpl; reflexivity.
  - apply os_mkdir_inr in E as (_ & Hp & ->). simpl. by apply adds_dirs_insert.
  - destruct e; simpl; try reflexivity;
      try (destruct (negb exist_ok || negb (is_dir (c :: par) fs)); simpl; reflexivity).
    apply (step_rel_bind (adds_dirs (c :: par))).
    + intros fs1. eapply adds_dirs_mono; [|apply IH]. by apply suffix_cons_r.
    + intros _. apply mkdir_single_adds.
  - apply os_mkdir_inr in E as (_ & Hp & ->). simpl. by apply adds_dirs_insert.
Qed.

(** A [mkdir] that returns leaves a directory at the path. *)
Lemma mkdir_single_dir p fs :
  completes (mkdir_single true p fs) → fs_after (mkdir_single true p fs) !! p = Some Dir.
Proof.
  unfold mkdir_single, completes.
  destruct (os_mkdir p fs) as [e|fs'] eqn:E.
  - destruct e; simpl; try done;
      unfold is_dir; case_bool_decide; simpl; done.
  - apply os_mkdir_inr in E as (_ & _ & ->). simpl. intros _. apply lookup_insert_eq.
Qed.

Lemma mkdir_parents_dir p fs :
  completes (mkdir_parents true p fs) → fs_after (mkdir_parents true p fs) !! p = Some Dir.
Proof.
  rewrite mkdir_parents_unfold.
  destruct (os_mkdir p fs) as [e|fs'] eqn:E.
  - destruct e; simpl;
      try (unfold completes, is_dir; case_bool_decide; simpl; done).
    destruct p as [|c par]; [done|].
    rewrite completes_seq, fs_after_bind. intros [H1 H2].
    apply completes_unit in H1. rewrite H1. by apply mkdir_single_dir.
  - apply os_mkdir_inr in E as (_ & _ & ->). simpl. intros _. apply lookup_insert_eq.
Qed.

Lemma mkdir_single_printed exist_ok p fs : printed (mkdir_single exist_ok p fs) = [].
Proof.
  unfold mkdir_single. destruct (os_mkdir p fs) as [[]|fs']; simpl; try done;
    by destruct (negb exist_ok || negb (is_dir p fs)).
Qed.

Lemma mkdir_parents_printed exist_ok p fs : printed (mkdir_parents exist_ok p fs) = [].
Proof.
  revert exist_ok fs. induction p as [|c par IH]; intros exist_ok fs;
    rewrite mkdir_parents_unfold;
    (destruct (os_mkdir _ fs) as [[]|fs']; simpl; try done;
      try by destruct (negb exist_ok || negb (is_dir _ fs))).
  rewrite printed_bind, IH. destruct (res _); [|done].
  by rewrite mkdir_single_printed.
Qed.

(** Well-formedness is kept by every call. *)
Lemma wf_insert_dir p fs :
  wf fs → fs !! parent p = Some Dir → fs !! p = None → wf (<[p := Dir]> fs).
Proof.
  intros [Hroot Hwf] Hpar Hp. split.
  - rewrite lookup_insert_ne; [done|]. intros ->. congruence.
  - intros c q. destruct (decide (p = c :: q)) as [->|Hne].
    + intros _. simpl in Hpar. rewrite lookup_insert_ne; [done|].
      intros E. apply (f_equal length) in E. simpl in E. lia.
    + rewrite lookup_insert_ne by done. intros Hq.
      destruct (decide (p = q)) as [->|Hne'].
      * apply (Hwf c) in Hq. congruence.
      * rewrite lookup_insert_ne by done. by apply (Hwf c).
Qed.

Lemma wf_insert_file p content fs :
  wf fs → fs !! parent p = Some Dir → fs !! p ≠ Some Dir →
  wf (<[p := File content]> fs).
Proof.
  intros [Hroot Hwf] Hpar Hp. split.
  - rewrite lookup_insert_ne; [done|]. intros ->. congruence.
  - intros c q. destruct (decide (p = c :: q)) as [->|Hne].
    + intros _. simpl in Hpar. rewrite lookup_insert_ne; [done|].
      intros E. apply (f_equal length) in E. simpl in E. lia.
    + rewrite lookup_insert_ne by done. intros Hq.
      destruct (decide (p = q)) as [->|Hne'].
      * apply (Hwf c) in Hq. congruence.
      * rewrite lookup_insert_ne by done. by apply (Hwf c).
Qed.

#[export] Instance keeps_wf_preorder : PreOrder keeps_wf.
Proof.
  split; [by intros fs ?|].
  intros fs1 fs2 fs3 H12 H23 H. by apply H23, H12.
Qed.

Lemma mkdir_single_wf exist_ok p : step_rel keeps_wf (mkdir_single exist_ok p).
Proof.
  intros fs Hwf. unfold mkdir_single.
  destruct (os_mkdir p fs) as [e|fs'] eqn:E.
  - destruct e; simpl; try done; by destruct (negb exist_ok || negb (is_dir p fs)).
  - apply os_mkdir_inr in E as (Hpar & Hp & ->). simpl. by apply wf_insert_dir.
Qed.

Lemma mkdir_parents_wf exist_ok p : step_rel keeps_wf (mkdir_parents exist_ok p).
Proof.
  revert exist_ok. induction p as [|c par IH]; intros exist_ok fs Hwf;
    rewrite mkdir_parents_unfold;
    destruct (os_mkdir _ fs) as [e|fs'] eqn:E;
    try (apply os_mkdir_inr in E as (Hpar & Hp & ->); simpl; by apply wf_insert_dir);
    (destruct e; simpl; try done;
      try by destruct (negb exist_ok || negb (is_dir _ fs))).
  revert Hwf. apply (step_rel_bind keeps_wf); [apply IH|].
  intros _. apply mkdir_single_wf.
Qed.

Lemma write_text_wf p content : step_rel keeps_wf (write_text p content).
Proof.
  intros fs Hwf. unfold write_text.
  destruct (fs !! parent p) as [[|?]|] eqn:Hpar; simpl; try done.
  destruct (fs !! p) as [[|?]|] eqn:Hp; simpl; try done;
    apply wf_insert_file; congruence.
Qed.

(** On a directory that exists, [mkdir(parents=True, exist_ok=True)] does
    nothing. *)
Lemma mkdir_parents_noop p fs :
  wf fs → fs !! p = Some Dir → mkdir_parents true p fs = Outcome (Ok tt) fs [].
Proof.
  intros [Hroot Hwf] Hp. rewrite mkdir_parents_unfold. unfold os_mkdir.
  assert (Hpar : fs !! parent p = Some Dir).
  { destruct p as [|c q]; [done|]. simpl. apply (Hwf c). by rewrite Hp. }
  rewrite Hpar, Hp. simpl. unfold is_dir. by rewrite bool_decide_eq_true_2.
Qed.

Lemma mkdir_single_completes p fs :
  fs !! parent p = Some Dir → ¬ is_file (fs !! p) →
  completes (mkdir_single true p fs).
Proof.
  intros Hpar Hp. unfold mkdir_single, os_mkdir. rewrite Hpar.
  destruct (fs !! p) as [[|x]|] eqn:E; simpl; try done.
  unfold is_dir. by rewrite bool_decide_eq_true_2.
Qed.

(** [mkdir(parents=True, exist_ok=True)] returns when no regular file is in
    its way. *)
Lemma mkdir_parents_completes p fs :
  wf fs → (∀ q, q `suffix_of` p → ¬ is_file (fs !! q)) →
  completes (mkdir_parents true p fs).
Proof.
  revert fs. induction p as [|c par IH]; intros fs Hwf Hfree.
  - rewrite mkdir_parents_noop; [done|done|apply Hwf].
  - rewrite mkdir_parents_unfold. unfold os_mkdir. simpl.
    destruct (fs !! par) as [[|x]|] eqn:Hpar.
    + destruct (fs !! (c :: par)) as [[|x]|] eqn:Hp; simpl.
      * unfold is_dir. by rewrite bool_decide_eq_true_2.
      * destruct (Hfree (c :: par)); [done|]. by rewrite Hp.
      * done.
    + destruct (Hfree par); [by apply suffix_cons_r|]. by rewrite Hpar.
    + assert (Hc : completes (mkdir_parents true par fs)).
      { apply IH; [done|]. intros q Hq. apply Hfree. by apply suffix_cons_r. }
      apply completes_seq. split; [done|].
      pose proof (mkdir_parents_dir par fs Hc) as Hdir.
      pose proof (mkdir_parents_adds true par fs (c :: par)) as Hadd.
      set (fs1 := fs_after (mkdir_parents true par fs)) in *.
      apply mkdir_single_completes; [done|].
      destruct Hadd as [E|(_ & E & _)]; [|rewrite E; by intros []].
      rewrite E. by apply Hfree.
Qed.

(** ** The tables *)

Lemma tables_relative_ok : tables_relative.
Proof. apply (bool_decide_unpack _). vm_compute. exact I. Qed.

Lemma tables_functional_ok : tables_functional.
Proof. apply (bool_decide_unpack _). vm_compute. exact I. Qed.

Lemma tables_separate_ok : tables_separate.
Proof. apply (bool_decide_unpack _). vm_compute. exact I. Qed.

Lemma joinpath_relative root rel :
  is_absolute rel = false → root // rel = rparts rel ++ root.
Proof. unfold joinpath. by intros ->. Qed.

Lemma joinpath_dir root rel :
  rel ∈ DIRS → root // rel = rparts rel ++ root ∧ rparts rel ≠ [].
Proof.
  intros Hrel. pose proof tables_relative_ok as H.
  unfold tables_relative in H. rewrite Forall_forall in H.
  destruct (H rel) as [? ?]; [apply elem_of_app; by left|].
  split; [by apply joinpath_relative|done].
Qed.

Lemma joinpath_file root rel content :
  (rel, content) ∈ ALL_FILES → root // rel = rparts rel ++ root ∧ rparts rel ≠ [].
Proof.
  intros Hrel. pose proof tables_relative_ok as H.
  unfold tables_relative in H. rewrite Forall_forall in H.
  destruct (H rel) as [? ?].
  { apply elem_of_app. right. apply list_elem_of_fmap. by exists (rel, content). }
  split; [by apply joinpath_relative|done].
Qed.

Lemma FILES_ALL_FILES e : e ∈ FILES → e ∈ ALL_FILES.
Proof. intros H. apply elem_of_app. by left. Qed.

Lemma manifest_ALL_FILES : ("package.json", ROOT_PACKAGE_JSON) ∈ ALL_FILES.
Proof. apply elem_of_app. right. left. Qed.

Lemma parent_joinpath root rel content :
  (rel, content) ∈ ALL_FILES → parent (root // rel) = tail (rparts rel) ++ root.
Proof.
  intros H. destruct (joinpath_file root rel content H) as [-> Hne].
  by destruct (rparts rel).
Qed.

(** ** The effect of a run on the file system *)

#[export] Instance effect_preorder root force : PreOrder (effect root force).
Proof.
  split.
  - intros fs q. by left.
  - intros fs1 fs2 fs3 H12 H23 q.
    destruct (H12 q) as [E12|[(N1 & D2 & M)|(F1 & ND1 & c & E2 & M)]],
             (H23 q) as [E23|[(N2 & D3 & M')|(F2 & ND2 & c' & E3 & M')]];
      try congruence.
    + left. congruence.
    + right. left. split; [congruence|done].
    + right. right. split; [by rewrite <- E12|]. split; [congruence|]. by exists c'.
    + right. left. split; [done|]. split; [congruence|done].
    + right. right. split; [done|]. split; [done|]. exists c. split; [congruence|done].
    + right. right. split; [done|]. split; [done|]. by exists c'.
Qed.

Lemma made_file_functional root q c c' :
  made_file root q c → made_file root q c' → c = c'.
Proof.
  intros (rel & Hrel & ->) (rel' & Hrel' & E).
  destruct (joinpath_file root rel c Hrel) as [E1 _].
  destruct (joinpath_file root rel' c' Hrel') as [E2 _].
  rewrite E1, E2 in E. apply app_inv_tail in E.
  pose proof tables_functional_ok as H. unfold tables_functional in H.
  rewrite Forall_forall in H. specialize (H _ Hrel).
  rewrite Forall_forall in H. by apply (H _ Hrel').
Qed.

Lemma made_file_not_dir root q c : made_file root q c → ¬ made_dir root q.
Proof.
  intros (rel & Hrel & ->).
  destruct (joinpath_file root rel c Hrel) as [E1 _]. rewrite E1.
  pose proof tables_separate_ok as H. unfold tables_separate in H.
  rewrite Forall_forall in H. destruct (H _ Hrel) as [Hd Hf].
  rewrite Forall_forall in Hd. rewrite Forall_forall in Hf.
  intros [(d & Hin & Hs)|(rel' & c' & Hin & Hs)].
  - destruct (joinpath_dir root d Hin) as [E2 _]. rewrite E2 in Hs.
    apply suffix_app_inv in Hs. by apply (Hd d).
  - rewrite (parent_joinpath root rel' c') in Hs by by apply FILES_ALL_FILES.
    apply suffix_app_inv in Hs. by apply (Hf (rel', c')).
Qed.

(** Once made, a directory stays, and a written file keeps its content. *)
Lemma effect_dir root force fs fs' q :
  effect root force fs fs' → fs !! q = Some Dir → fs' !! q = Some Dir.
Proof.
  intros H Hq. destruct (H q) as [E|[(N & _)|(_ & ND & _)]]; congruence.
Qed.

Lemma effect_file root force fs fs' q c :
  effect root force fs fs' → made_file root q c →
  fs !! q = Some (File c) → fs' !! q = Some (File c).
Proof.
  intros H Hm Hq. destruct (H q) as [E|[(N & _)|(_ & _ & c' & E & Hm')]];
    [congruence|congruence|].
  by rewrite E, (made_file_functional root q c c').
Qed.

Lemma effect_is_Some root force fs fs' q :
  effect root force fs fs' → is_Some (fs !! q) → is_Some (fs' !! q).
Proof.
  intros H Hq. destruct (H q) as [E|[(N & E & _)|(_ & _ & c' & E & _)]];
    rewrite E; done.
Qed.

(** Without [force] nothing that exists is changed. *)
Lemma effect_skip_keeps root fs fs' q n :
  effect root false fs fs' → fs !! q = Some n → fs' !! q = Some n.
Proof.
  intros H Hq. destruct (H q) as [E|[(N & _)|([?|N] & _)]]; congruence.
Qed.

Lemma effect_adds_dirs root force d fs fs' :
  (∀ q, q `suffix_of` d → made_dir root q) →
  adds_dirs d fs fs' → effect root force fs fs'.
Proof.
  intros Hd H q. destruct (H q) as [?|(? & ? & ?)]; [by left|].
  right. left. split; [done|]. split; [done|]. by apply Hd.
Qed.

(** [write_text] either returns, in a directory and not on a directory,
    with the file in place, or raises and changes nothing. *)
Lemma write_text_spec p content fs :
  (completes (write_text p content fs) ∧ fs !! parent p = Some Dir ∧
   fs !! p ≠ Some Dir ∧ fs_after (write_text p content fs) = <[p := File content]> fs) ∨
  (¬ completes (write_text p content fs) ∧ fs_after (write_text p content fs) = fs).
Proof.
  unfold write_text, completes.
  destruct (fs !! parent p) as [[|?]|]; simpl; try (right; split; [tauto|done]).
  destruct (fs !! p) as [[|?]|]; simpl; try (right; split; [tauto|done]);
    left; done.
Qed.

Lemma write_text_printed p content fs : printed (write_text p content fs) = [].
Proof.
  unfold write_text. destruct (fs !! parent p) as [[|?]|]; simpl; try done.
  by destruct (fs !! p) as [[|?]|].
Qed.

Lemma effect_write_text root force p content fs :
  made_file root p content → force = true ∨ fs !! p = None →
  effect root force fs (fs_after (write_text p content fs)).
Proof.
  intros Hm Hf.
  destruct (write_text_spec p content fs) as [(_ & _ & Hp & ->)|(_ & ->)];
    [|reflexivity].
  intros q. destruct (decide (p = q)) as [<-|Hne].
  - right. right. split; [done|]. split; [done|].
    exists content. by rewrite lookup_insert_eq.
  - left. by rewrite lookup_insert_ne.
Qed.

Lemma fs_after_then_print (m : M unit) line fs :
  fs_after ((m ;; print line) fs) = fs_after (m fs).
Proof. rewrite fs_after_bind. by destruct (res (m fs)). Qed.

Lemma completes_then_print (m : M unit) line fs :
  completes ((m ;; print line) fs) ↔ completes (m fs).
Proof. rewrite completes_seq. unfold completes at 2. simpl. tauto. Qed.

Lemma mkdir_unfold p : mkdir true true p = mkdir_parents true p.
Proof. done. Qed.

(** *** One turn of [ensure_dirs] *)

Lemma ensure_dirs_unfold root : ensure_dirs root = for_each DIRS (ensure_dir root).
Proof. done. Qed.

Lemma ensure_dir_adds root rel :
  step_rel (adds_dirs (root // rel)) (ensure_dir root rel).
Proof.
  intros fs. unfold ensure_dir. rewrite fs_after_then_print.
  apply mkdir_parents_adds.
Qed.

Lemma ensure_dir_effect root force rel :
  rel ∈ DIRS → step_rel (effect root force) (ensure_dir root rel).
Proof.
  intros Hrel fs. eapply effect_adds_dirs; [|apply ensure_dir_adds].
  intros q Hq. left. by exists rel.
Qed.

Lemma ensure_dir_wf root rel : step_rel keeps_wf (ensure_dir root rel).
Proof.
  intros fs. unfold ensure_dir. rewrite fs_after_then_print.
  apply mkdir_parents_wf.
Qed.

Lemma ensure_dir_dir root rel fs :
  completes (ensure_dir root rel fs) →
  fs_after (ensure_dir root rel fs) !! (root // rel) = Some Dir.
Proof.
  unfold ensure_dir. rewrite completes_then_print, fs_after_then_print.
  apply mkdir_parents_dir.
Qed.

(** *** One turn of [write_files] *)

Lemma write_file_skip root rel content fs :
  is_Some (fs !! (root // rel)) →
  write_file root false (rel, content) fs = Outcome (Ok tt) fs [skip_line rel].
Proof.
  intros Hex. unfold write_file, mbind, M_bind, bind, path_exists. simpl.
  by rewrite bool_decide_eq_true_2.
Qed.

(** A turn that does not skip makes the parent and then writes. *)
Lemma write_file_write root force rel content fs :
  force = true ∨ fs !! (root // rel) = None →
  write_file root force (rel, content) fs =
    (mkdir true true (parent (root // rel)) ;;
     write_text (root // rel) content ;;
     print (write_line rel)) fs.
Proof.
  intros Hf. unfold write_file.
  assert (E : bool_decide (is_Some (fs !! (root // rel))) && negb force = false).
  { destruct Hf as [->|Hn]; [by rewrite andb_false_r|].
    rewrite bool_decide_eq_false_2; [done|]. rewrite Hn. by intros [? ?]. }
  unfold mbind at 1, M_bind at 1, bind at 1, path_exists. simpl. rewrite E.
  match goal with |- _ = ?o => by destruct o end.
Qed.

Lemma write_file_cases (root : Path) (force : bool) (rel content : string) (fs : FS) :
  (force = false ∧ is_Some (fs !! (root // rel))) ∨
  (force = true ∨ fs !! (root // rel) = None).
Proof.
  destruct force; [right; by left|].
  destruct (fs !! (root // rel)) eqn:E; [left|right; by right]. by split.
Qed.

Lemma not_suffix_parent (p : Path) : p ≠ [] → ¬ p `suffix_of` parent p.
Proof.
  destruct p as [|c q]; [done|]. intros _. simpl. apply suffix_cons_not.
Qed.

Lemma adds_dirs_parent_keeps (p : Path) (fs fs' : FS) :
  p ≠ [] → adds_dirs (parent p) fs fs' → fs' !! p = fs !! p.
Proof.
  intros Hne H. destruct (H p) as [?|(_ & _ & Hs)]; [done|].
  by apply not_suffix_parent in Hs.
Qed.

Lemma joinpath_file_ne root rel content :
  (rel, content) ∈ ALL_FILES → root // rel ≠ [].
Proof.
  intros H. destruct (joinpath_file root rel content H) as [-> Hne].
  by destruct (rparts rel).
Qed.

Lemma write_file_effect root force rel content :
  (rel, content) ∈ FILES → step_rel (effect root force) (write_file root force (rel, content)).
Proof.
  intros Hin fs.
  destruct (write_file_cases root force rel content fs) as [[-> Hex]|Hf].
  { rewrite write_file_skip by done. simpl. reflexivity. }
  rewrite write_file_write by done.
  pose proof (mkdir_parents_adds true (parent (root // rel)) fs) as Hadd.
  rewrite fs_after_bind, mkdir_unfold.
  assert (Hmk : effect root force fs (fs_after (mkdir_parents true (parent (root // rel)) fs))).
  { eapply effect_adds_dirs; [|exact Hadd]. intros q Hq. right. by exists rel, content. }
  destruct (res _); [|done]. rewrite fs_after_then_print.
  etrans; [exact Hmk|]. apply effect_write_text.
  - exists rel. split; [by apply FILES_ALL_FILES|done].
  - destruct Hf as [?|Hn]; [by left|right].
    rewrite <- Hn. apply adds_dirs_parent_keeps; [|done].
    eapply joinpath_file_ne. by apply FILES_ALL_FILES.
Qed.

Lemma write_file_wf root force entry : step_rel keeps_wf (write_file root force entry).
Proof.
  destruct entry as [rel content]. unfold write_file.
  apply (step_rel_bind keeps_wf); [apply step_rel_path_exists; apply _|].
  intros ex. destruct (ex && negb force); [apply step_rel_print; apply _|].
  apply (step_rel_bind keeps_wf); [apply mkdir_parents_wf|]. intros _.
  apply (step_rel_bind keeps_wf); [apply write_text_wf|]. intros _.
  apply step_rel_print; apply _.
Qed.

(** After a turn that completes, its path exists; with [force] it holds the
    table content. *)
Lemma write_file_exists root force rel content fs :
  completes (write_file root force (rel, content) fs) →
  is_Some (fs_after (write_file root force (rel, content) fs) !! (root // rel)).
Proof.
  destruct (write_file_cases root force rel content fs) as [[-> Hex]|Hf].
  { by rewrite write_file_skip. }
  rewrite write_file_write by done.
  rewrite completes_seq, fs_after_bind. intros [H1 H2].
  apply completes_unit in H1. rewrite H1.
  rewrite completes_then_print in H2. rewrite fs_after_then_print.
  destruct (write_text_spec (root // rel) content
              (fs_after (mkdir true true (parent (root // rel)) fs)))
    as [(_ & _ & _ & ->)|(? & _)]; [|done].
  by rewrite lookup_insert_eq.
Qed.

Lemma write_file_written root force rel content fs :
  force = true ∨ fs !! (root // rel) = None →
  completes (write_file root force (rel, content) fs) →
  fs_after (write_file root force (rel, content) fs) !! (root // rel) = Some (File content) ∧
  write_line rel ∈ printed (write_file root force (rel, content) fs).
Proof.
  intros Hf. rewrite write_file_write by done.
  rewrite completes_seq, fs_after_bind, printed_bind. intros [H1 H2].
  apply completes_unit in H1. rewrite H1.
  rewrite completes_then_print in H2. rewrite fs_after_then_print.
  pose proof H2 as H3. apply completes_unit in H3.
  rewrite printed_bind, H3. split.
  - destruct (write_text_spec (root // rel) content
                (fs_after (mkdir true true (parent (root // rel)) fs)))
      as [(_ & _ & _ & ->)|(? & _)]; [|done].
    by rewrite lookup_insert_eq.
  - apply elem_of_app. right. apply elem_of_app. right. left.
Qed.

(** *** [create_root_package_json] *)

Lemma create_skip root fs :
  is_Some (fs !! (root // "package.json")) →
  create_root_package_json root false fs =
    Outcome (Ok tt) fs [skip_line "package.json"].
Proof.
  intros Hex. unfold create_root_package_json, mbind, M_bind, bind, path_exists.
  simpl. by rewrite bool_decide_eq_true_2.
Qed.

Lemma create_write root force fs :
  force = true ∨ fs !! (root // "package.json") = None →
  create_root_package_json root force fs =
    (write_text (root // "package.json") ROOT_PACKAGE_JSON ;;
     print (write_line "package.json")) fs.
Proof.
  intros Hf. unfold create_root_package_json.
  assert (E : bool_decide (is_Some (fs !! (root // "package.json"))) && negb force = false).
  { destruct Hf as [->|Hn]; [by rewrite andb_false_r|].
    rewrite bool_decide_eq_false_2; [done|]. rewrite Hn. by intros [? ?]. }
  unfold mbind at 1, M_bind at 1, bind at 1, path_exists. simpl. rewrite E.
  match goal with |- _ = ?o => by destruct o end.
Qed.

Lemma create_effect root force :
  step_rel (effect root force) (create_root_package_json root force).
Proof.
  intros fs.
  destruct (write_file_cases root force "package.json" ROOT_PACKAGE_JSON fs)
    as [[-> Hex]|Hf].
  { rewrite create_skip by done. simpl. reflexivity. }
  rewrite create_write by done. rewrite fs_after_then_print.
  apply effect_write_text; [|done].
  exists "package.json". split; [apply manifest_ALL_FILES|done].
Qed.

Lemma create_wf root force : step_rel keeps_wf (create_root_package_json root force).
Proof.
  unfold create_root_package_json.
  apply (step_rel_bind keeps_wf); [apply step_rel_path_exists; apply _|].
  intros ex. destruct (ex && negb force); [apply step_rel_print; apply _|].
  apply (step_rel_bind keeps_wf); [apply write_text_wf|]. intros _.
  apply step_rel_print; apply _.
Qed.

Lemma create_exists root force fs :
  completes (create_root_package_json root force fs) →
  is_Some (fs_after (create_root_package_json root force fs) !! (root // "package.json")).
Proof.
  destruct (write_file_cases root force "package.json" ROOT_PACKAGE_JSON fs)
    as [[-> Hex]|Hf].
  { by rewrite create_skip. }
  rewrite create_write by done.
  rewrite completes_then_print, fs_after_then_print.
  destruct (write_text_spec (root // "package.json") ROOT_PACKAGE_JSON fs)
    as [(_ & _ & _ & ->)|(? & _)]; [|done].
  by rewrite lookup_insert_eq.
Qed.

Lemma create_written root force fs :
  force = true ∨ fs !! (root // "package.json") = None →
  completes (create_root_package_json root force fs) →
  fs_after (create_root_package_json root force fs) !! (root // "package.json")
    = Some (File ROOT_PACKAGE_JSON).
Proof.
  intros Hf. rewrite create_write by done.
  rewrite completes_then_print, fs_after_then_print.
  destruct (write_text_spec (root // "package.json") ROOT_PACKAGE_JSON fs)
    as [(_ & _ & _ & ->)|(? & _)]; [|done].
  by rewrite lookup_insert_eq.
Qed.

(** ** The run as a whole *)

Lemma with_messages_print line (k : M unit) fs (o : outcome unit) :
  with_messages o (k fs) → with_messages o ((print line ;; k) fs).
Proof.
  intros (H1 & H2 & H3). split; [done|]. split; [done|].
  intros l Hl. simpl. right. by apply H3.
Qed.

Lemma with_messages_bind (m k k' : M unit) fs :
  (∀ fs', with_messages (k fs') (k' fs')) →
  with_messages ((m ;; k) fs) ((m ;; k') fs).
Proof.
  intros H. unfold with_messages.
  rewrite !res_bind, !fs_after_bind, !printed_bind.
  destruct (res (m fs)) as [[]|e]; [|done].
  destruct (H (fs_after (m fs))) as (H1 & H2 & H3).
  split; [done|]. split; [done|].
  intros l. rewrite !elem_of_app. intros [?|?]; [by left|right]. by apply H3.
Qed.

Lemma with_messages_end (m t : M unit) fs :
  (∀ fs', res (t fs') = Ok tt ∧ fs_after (t fs') = fs') →
  with_messages (m fs) ((m ;; t) fs).
Proof.
  intros H. unfold with_messages.
  rewrite !res_bind, !fs_after_bind, !printed_bind.
  destruct (res (m fs)) as [[]|e] eqn:E; [|done].
  destruct (H (fs_after (m fs))) as (-> & ->).
  split; [done|]. split; [done|].
  intros l Hl. apply elem_of_app. by left.
Qed.

Lemma main_scaffold sp force fs :
  with_messages (scaffold (detect_repo_root sp) force fs) (main sp force fs).
Proof.
  unfold main, scaffold.
  do 7 apply with_messages_print.
  apply with_messages_bind. intros fs1.
  do 2 apply with_messages_print.
  apply with_messages_bind. intros fs2.
  do 2 apply with_messages_print.
  apply with_messages_end. intros fs3. done.
Qed.

Lemma main_res sp force fs :
  res (main sp force fs) = res (scaffold (detect_repo_root sp) force fs).
Proof. symmetry. apply main_scaffold. Qed.

Lemma main_fs_after sp force fs :
  fs_after (main sp force fs) = fs_after (scaffold (detect_repo_root sp) force fs).
Proof. symmetry. apply main_scaffold. Qed.

Lemma main_completes sp force fs :
  completes (main sp force fs) ↔ completes (scaffold (detect_repo_root sp) force fs).
Proof. unfold completes. by rewrite main_res. Qed.

Lemma main_printed sp force fs line :
  line ∈ printed (scaffold (detect_repo_root sp) force fs) →
  line ∈ printed (main sp force fs).
Proof. apply main_scaffold. Qed.

Lemma scaffold_completes root force fs :
  completes (scaffold root force fs) ↔
    completes (ensure_dirs root fs) ∧
    completes (write_files root force (after_dirs root fs)) ∧
    completes (create_root_package_json root force (after_files root force fs)).
Proof.
  unfold scaffold. by rewrite !completes_seq.
Qed.

Lemma scaffold_fs_after root force fs :
  completes (scaffold root force fs) →
  fs_after (scaffold root force fs) =
    fs_after (create_root_package_json root force (after_files root force fs)).
Proof.
  intros (H1 & H2 & H3)%scaffold_completes.
  apply completes_unit in H1, H2.
  unfold scaffold in *.
  by rewrite !fs_after_bind, H1, H2.
Qed.

Lemma scaffold_printed root force fs line :
  completes (scaffold root force fs) →
  line ∈ printed (write_files root force (after_dirs root fs)) ∨
  line ∈ printed (create_root_package_json root force (after_files root force fs)) →
  line ∈ printed (scaffold root force fs).
Proof.
  intros (H1 & H2 & H3)%scaffold_completes.
  apply completes_unit in H1, H2.
  unfold scaffold in *.
  rewrite printed_bind, H1, printed_bind, H2, !elem_of_app. tauto.
Qed.

(** *** The operations *)

Lemma ensure_dirs_effect root force : step_rel (effect root force) (ensure_dirs root).
Proof.
  rewrite ensure_dirs_unfold. apply step_rel_for_each; [apply _|].
  intros rel Hrel. by apply ensure_dir_effect.
Qed.

Lemma write_files_effect root force :
  step_rel (effect root force) (write_files root force).
Proof.
  apply step_rel_for_each; [apply _|]. intros [rel content] Hin.
  by apply write_file_effect.
Qed.

Lemma scaffold_effect root force : step_rel (effect root force) (scaffold root force).
Proof.
  unfold scaffold.
  apply step_rel_bind; [apply _|apply ensure_dirs_effect|]. intros _.
  apply step_rel_bind; [apply _|apply write_files_effect|]. intros _.
  apply create_effect.
Qed.

Lemma main_effect sp force fs :
  effect (detect_repo_root sp) force fs (fs_after (main sp force fs)).
Proof. rewrite main_fs_after. apply scaffold_effect. Qed.

Lemma scaffold_wf root force : step_rel keeps_wf (scaffold root force).
Proof.
  unfold scaffold.
  apply step_rel_bind; [apply _| |].
  { rewrite ensure_dirs_unfold. apply step_rel_for_each; [apply _|].
    intros rel _. apply ensure_dir_wf. }
  intros _. apply step_rel_bind; [apply _| |].
  { apply step_rel_for_each; [apply _|]. intros e _. apply write_file_wf. }
  intros _. apply create_wf.
Qed.

Lemma main_wf sp force fs : wf fs → wf (fs_after (main sp force fs)).
Proof. rewrite main_fs_after. apply scaffold_wf. Qed.

(** After [ensure_dirs] has completed, every listed directory exists. *)
Lemma ensure_dirs_dirs root fs rel :
  completes (ensure_dirs root fs) → rel ∈ DIRS →
  after_dirs root fs !! (root // rel) = Some Dir.
Proof.
  intros Hc Hrel.
  destruct (for_each_turn (effect root false) DIRS (ensure_dir root) fs rel)
    as (fs1 & _ & Hc1 & Hrest & _); [|done|done|].
  { intros d Hd. by apply ensure_dir_effect. }
  rewrite ensure_dirs_unfold. eapply effect_dir; [exact Hrest|].
  by apply ensure_dir_dir.
Qed.

(** In a loop of [write_files] that completes, the turn of each table file
    ran in a state the loop reached, and the loop ended in a state reached
    from the end of that turn. *)
Lemma write_files_turn root force fs rel content :
  completes (write_files root force fs) → (rel, content) ∈ FILES →
  ∃ fs1, effect root force fs fs1 ∧
         completes (write_file root force (rel, content) fs1) ∧
         effect root force (fs_after (write_file root force (rel, content) fs1))
                (fs_after (write_files root force fs)) ∧
         printed (write_file root force (rel, content) fs1)
           ⊆ printed (write_files root force fs).
Proof.
  unfold write_files. intros Hc Hin.
  apply (for_each_turn (effect root force)); [|exact Hc|exact Hin].
  intros [r c] Hr. by apply write_file_effect.
Qed.

(** The same within a run. *)
Lemma scaffold_turn root force fs rel content :
  completes (scaffold root force fs) → (rel, content) ∈ FILES →
  ∃ fs1, effect root force fs fs1 ∧
         completes (write_file root force (rel, content) fs1) ∧
         effect root force (fs_after (write_file root force (rel, content) fs1))
                (fs_after (scaffold root force fs)) ∧
         printed (write_file root force (rel, content) fs1)
           ⊆ printed (scaffold root force fs).
Proof.
  intros Hc Hin.
  destruct (proj1 (scaffold_completes root force fs) Hc) as (H1 & H2 & H3).
  destruct (write_files_turn root force (after_dirs root fs) rel content H2 Hin)
    as (fs1 & Hpre & Hc1 & Hrest & Hpr).
  exists fs1. split; [|split; [exact Hc1|split]].
  - etrans; [|exact Hpre]. exact (ensure_dirs_effect root force fs).
  - etrans; [exact Hrest|]. rewrite (scaffold_fs_after root force fs Hc).
    exact (create_effect root force (after_files root force fs)).
  - intros l Hl. apply (scaffold_printed root force fs l Hc). left. by apply Hpr.
Qed.

(** ** When a run completes *)

Lemma wf_suffix_dir (fs : FS) (p q : Path) :
  wf fs → is_Some (fs !! p) → q `suffix_of` p → q ≠ p → fs !! q = Some Dir.
Proof.
  intros [Hroot Hwf] Hp [k ->]. revert Hp.
  induction k as [|c k IH]; intros Hp Hne; [done|].
  simpl in Hp. apply (Hwf c) in Hp.
  destruct k as [|c' k]; [exact Hp|]. apply IH.
  - by rewrite Hp.
  - intros E. apply (f_equal length) in E. rewrite length_app in E. simpl in E. lia.
Qed.

Lemma wf_ancestors_dir (fs : FS) (p q : Path) :
  wf fs → fs !! p = Some Dir → q `suffix_of` p → fs !! q = Some Dir.
Proof.
  intros Hwf Hp Hq. destruct (decide (q = p)) as [->|Hne]; [done|].
  apply (wf_suffix_dir fs p q); [done|by rewrite Hp|done|done].
Qed.

Lemma effect_unobstructed root force fs fs' :
  effect root force fs fs' → unobstructed root fs → unobstructed root fs'.
Proof.
  intros H Hun q Hq. destruct (H q) as [E|[(_ & E & _)|(_ & _ & c & E & Hm)]].
  - rewrite E. by apply Hun.
  - rewrite E. by intros [].
  - by destruct (made_file_not_dir root q c).
Qed.

Lemma effect_files_writable root force fs fs' :
  effect root force fs fs' → files_writable root fs → files_writable root fs'.
Proof.
  intros H Hw rel content Hin.
  destruct (H (root // rel)) as [E|[(_ & E & Hm)|(_ & _ & c & E & Hm)]].
  - rewrite E. by apply Hw with content.
  - destruct (made_file_not_dir root (root // rel) content); [by exists rel|done].
  - by rewrite E.
Qed.

Lemma effect_ready root force fs fs' :
  effect root force fs fs' → keeps_wf fs fs' → ready root force fs → ready root force fs'.
Proof.
  intros H Hk (Hwf & Hun & Hw). split; [by apply Hk|]. split.
  - by apply (effect_unobstructed root force fs).
  - intros Hf. by apply (effect_files_writable root force fs), Hw.
Qed.

Lemma write_text_completes (p : Path) (content : string) (fs : FS) :
  fs !! parent p = Some Dir → fs !! p ≠ Some Dir →
  completes (write_text p content fs).
Proof.
  intros Hpar Hp. unfold write_text. rewrite Hpar.
  by destruct (fs !! p) as [[|?]|].
Qed.

Lemma ensure_dir_ready root force rel fs :
  rel ∈ DIRS → ready root force fs →
  completes (ensure_dir root rel fs) ∧ ready root force (fs_after (ensure_dir root rel fs)).
Proof.
  intros Hrel Hr. split.
  - unfold ensure_dir. rewrite completes_then_print.
    apply mkdir_parents_completes; [apply Hr|].
    intros q Hq. apply Hr. left. by exists rel.
  - eapply effect_ready; [|apply ensure_dir_wf|done]. by apply ensure_dir_effect.
Qed.

Lemma write_file_ready root force rel content fs :
  (rel, content) ∈ FILES → ready root force fs →
  completes (write_file root force (rel, content) fs) ∧
  ready root force (fs_after (write_file root force (rel, content) fs)).
Proof.
  intros Hin Hr. split.
  2:{ eapply effect_ready; [|apply write_file_wf|done]. by apply write_file_effect. }
  destruct (write_file_cases root force rel content fs) as [[-> Hex]|Hf].
  { by rewrite write_file_skip. }
  rewrite write_file_write by done.
  assert (Hmk : completes (mkdir_parents true (parent (root // rel)) fs)).
  { apply mkdir_parents_completes; [apply Hr|].
    intros q Hq. apply Hr. right. by exists rel, content. }
  apply completes_seq. split; [done|]. apply completes_then_print.
  rewrite mkdir_unfold.
  pose proof (mkdir_parents_adds true (parent (root // rel)) fs) as Hadd.
  apply write_text_completes; [by apply mkdir_parents_dir|].
  destruct Hf as [->|Hn].
  - assert (Hr' : ready root true (fs_after (mkdir_parents true (parent (root // rel)) fs))).
    { eapply effect_ready; [|apply mkdir_parents_wf|done].
      eapply effect_adds_dirs; [|exact Hadd].
      intros q Hq. right. by exists rel, content. }
    destruct Hr' as (_ & _ & Hw). apply (Hw eq_refl rel content).
    by apply FILES_ALL_FILES.
  - rewrite (adds_dirs_parent_keeps _ fs); [by rewrite Hn| |done].
    eapply joinpath_file_ne. by apply FILES_ALL_FILES.
Qed.

Lemma ensure_dirs_ready root force fs :
  ready root force fs →
  completes (ensure_dirs root fs) ∧ ready root force (after_dirs root fs).
Proof.
  intros Hr. rewrite ensure_dirs_unfold.
  apply (for_each_completes (ready root force)); [|done].
  intros rel fs' Hrel. by apply ensure_dir_ready.
Qed.

Lemma write_files_ready root force fs :
  ready root force fs →
  completes (write_files root force fs) ∧
  ready root force (fs_after (write_files root force fs)).
Proof.
  intros Hr. apply (for_each_completes (ready root force)); [|done].
  intros [rel content] fs' Hin. by apply write_file_ready.
Qed.

Lemma ensure_dirs_wf root : step_rel keeps_wf (ensure_dirs root).
Proof.
  rewrite ensure_dirs_unfold. apply step_rel_for_each; [apply _|].
  intros rel _. apply ensure_dir_wf.
Qed.

Lemma apps_in_DIRS : "apps" ∈ DIRS.
Proof. left. Qed.

Lemma root_dir_after_dirs root fs :
  wf fs → completes (ensure_dirs root fs) → after_dirs root fs !! root = Some Dir.
Proof.
  intros Hwf Hc.
  apply (wf_ancestors_dir _ (root // "apps")).
  - by apply ensure_dirs_wf.
  - apply ensure_dirs_dirs; [done|apply apps_in_DIRS].
  - by apply suffix_cons_r.
Qed.

Lemma create_ready root force fs :
  fs !! root = Some Dir → (force = true → files_writable root fs) →
  completes (create_root_package_json root force fs).
Proof.
  intros Hroot Hw.
  destruct (write_file_cases root force "package.json" ROOT_PACKAGE_JSON fs)
    as [[-> Hex]|Hf].
  { by rewrite create_skip. }
  rewrite create_write by done. apply completes_then_print.
  apply write_text_completes; [exact Hroot|].
  destruct Hf as [Hf|Hn]; [|by rewrite Hn].
  apply (Hw Hf "package.json" ROOT_PACKAGE_JSON), manifest_ALL_FILES.
Qed.

(** A run completes from a well-formed state where no regular file stands
    in place of a directory and, with [force], no directory in place of a
    file. *)
Lemma scaffold_ready root force fs :
  ready root force fs → completes (scaffold root force fs).
Proof.
  intros Hr. apply (proj2 (scaffold_completes root force fs)).
  destruct (ensure_dirs_ready root force fs Hr) as [H1 Hr1].
  destruct (write_files_ready root force (after_dirs root fs) Hr1) as [H2 Hr2].
  split; [exact H1|]. split; [exact H2|].
  apply create_ready.
  - apply (effect_dir root force (after_dirs root fs));
      [exact (write_files_effect root force (after_dirs root fs))|].
    apply root_dir_after_dirs; [apply Hr|exact H1].
  - intros Hf. destruct Hr2 as (_ & _ & Hw). exact (Hw Hf).
Qed.

(** ** Shared consequences *)

(** In a run with [force] that completes, every file of the run holds its
    literal content at the end. *)
Lemma force_run_canonical root fs rel content :
  (rel, content) ∈ ALL_FILES → completes (scaffold root true fs) →
  fs_after (scaffold root true fs) !! (root // rel) = Some (File content).
Proof.
  intros Hin Hc. apply elem_of_app in Hin as [Hin|Hin].
  - destruct (scaffold_turn root true fs rel content Hc Hin)
      as (fs1 & _ & Hc1 & Hrest & _).
    eapply effect_file; [exact Hrest| |].
    + exists rel. split; [by apply FILES_ALL_FILES|done].
    + apply write_file_written; [by left|done].
  - apply list_elem_of_singleton in Hin as [= -> ->].
    rewrite scaffold_fs_after by done.
    apply create_written; [by left|]. by apply scaffold_completes in Hc as (_ & _ & ?).
Qed.

(** In a run that completes, every file of the run exists at the end. *)
Lemma run_files_exist root force fs rel content :
  (rel, content) ∈ ALL_FILES → completes (scaffold root force fs) →
  is_Some (fs_after (scaffold root force fs) !! (root // rel)).
Proof.
  intros Hin Hc. apply elem_of_app in Hin as [Hin|Hin].
  - destruct (scaffold_turn root force fs rel content Hc Hin)
      as (fs1 & _ & Hc1 & Hrest & _).
    eapply effect_is_Some; [exact Hrest|]. by apply write_file_exists.
  - apply list_elem_of_singleton in Hin as [= -> ->].
    rewrite scaffold_fs_after by done.
    apply create_exists. by apply scaffold_completes in Hc as (_ & _ & ?).
Qed.

(** In a run that completes, every listed directory exists at the end. *)
Lemma run_dirs_exist root force fs rel :
  rel ∈ DIRS → completes (scaffold root force fs) →
  fs_after (scaffold root force fs) !! (root // rel) = Some Dir.
Proof.
  intros Hin Hc. pose proof Hc as (H1 & H2 & H3)%scaffold_completes.
  rewrite scaffold_fs_after by done.
  eapply effect_dir; [apply (create_effect root force)|].
  eapply effect_dir; [apply (write_files_effect root force)|].
  by apply ensure_dirs_dirs.
Qed.

(** A file that was not there and is there after a run without [force]
    holds its literal content. *)
Lemma skip_run_created root fs fs' rel content :
  (rel, content) ∈ ALL_FILES → effect root false fs fs' →
  fs !! (root // rel) = None → is_Some (fs' !! (root // rel)) →
  fs' !! (root // rel) = Some (File content).
Proof.
  intros Hin H Hn Hs.
  assert (Hm : made_file root (root // rel) content) by by exists rel.
  destruct (H (root // rel)) as [E|[(_ & _ & Hd)|(_ & _ & c & E & Hm')]].
  - rewrite E, Hn in Hs. by destruct Hs.
  - by destruct (made_file_not_dir root (root // rel) content).
  - by rewrite E, (made_file_functional root (root // rel) c content).
Qed.

(** Without [force], a file of the run that exists when its turn comes is
    reported as skipped. *)
Lemma skip_run_reports root fs rel content :
  (rel, content) ∈ ALL_FILES → is_Some (fs !! (root // rel)) →
  completes (scaffold root false fs) →
  skip_line rel ∈ printed (scaffold root false fs).
Proof.
  intros Hin Hex Hc. apply elem_of_app in Hin as [Hin|Hin].
  - destruct (scaffold_turn root false fs rel content Hc Hin)
      as (fs1 & Hpre & _ & _ & Hpr).
    apply Hpr. rewrite write_file_skip; [left|].
    by apply (effect_is_Some root false fs).
  - apply list_elem_of_singleton in Hin as [= -> ->].
    apply scaffold_printed; [done|]. right. rewrite create_skip; [left|].
    apply (effect_is_Some root false fs); [|done].
    etrans; [apply ensure_dirs_effect|apply write_files_effect].
Qed.

Lemma suffix_below (root k q : Path) :
  q `suffix_of` k ++ root → q `suffix_of` root ∨ (root `suffix_of` q ∧ q ≠ root).
Proof.
  intros Hq.
  destruct (suffix_weak_total q root (k ++ root) Hq) as [?|Hr];
    [by apply suffix_app_r|by left|].
  destruct (decide (q = root)) as [->|?]; [by left|by right].
Qed.

Lemma parent_suffix (p : Path) : parent p `suffix_of` p.
Proof. destruct p; [done|]. simpl. by apply suffix_cons_r. Qed.

Lemma made_dir_below root q :
  made_dir root q → q `suffix_of` root ∨ (root `suffix_of` q ∧ q ≠ root).
Proof.
  intros [(rel & Hin & Hs)|(rel & c & Hin & Hs)].
  - destruct (joinpath_dir root rel Hin) as [E _]. rewrite E in Hs.
    by apply suffix_below in Hs.
  - assert (Hs' : q `suffix_of` root // rel) by (etrans; [exact Hs|apply parent_suffix]).
    destruct (joinpath_file root rel c) as [E _]; [by apply FILES_ALL_FILES|].
    rewrite E in Hs'. by apply suffix_below in Hs'.
Qed.

(** An empty root directory in a well-formed file system is ready for a
    run, with or without [force]. *)
Lemma empty_root_ready root force fs :
  wf fs → fs !! root = Some Dir →
  (∀ q : Path, root `suffix_of` q → q ≠ root → fs !! q = None) →
  ready root force fs.
Proof.
  intros Hwf Hroot Hempty. split; [done|]. split.
  - intros q [Hq|[Hq Hne]]%made_dir_below.
    + rewrite (wf_ancestors_dir fs root q); [by intros []|done..].
    + rewrite Hempty; [by intros []|done..].
  - intros _ rel content Hin.
    destruct (joinpath_file root rel content Hin) as [E Hne].
    rewrite Hempty; [done|rewrite E; by apply suffix_app_r|].
    rewrite E. intros Heq. apply (f_equal length) in Heq.
    rewrite length_app in Heq. destruct (rparts rel); [done|simpl in Heq; lia].
Qed.

(** ** Deciding the conditions on a state *)

Lemma wf_alt (fs : FS) :
  wf fs ↔
    fs !! ([] : Path) = Some Dir ∧
    map_Forall (λ (p : Path) (_ : node), fs !! parent p = Some Dir) fs.
Proof.
  unfold wf. split; intros [Hroot H]; (split; [done|]).
  - intros [|c p] n Hp; [done|]. simpl. apply (H c). by rewrite Hp.
  - intros c p [n Hp]. by apply (H (c :: p) n).
Qed.

#[export] Instance wf_dec (fs : FS) : Decision (wf fs).
Proof.
  refine (cast_if (decide (fs !! ([] : Path) = Some Dir ∧
    map_Forall (λ (p : Path) (_ : node), fs !! parent p = Some Dir) fs)));
    abstract (by rewrite wf_alt).
Defined.

Lemma empty_below_alt (root : Path) (fs : FS) :
  empty_below root fs ↔
    map_Forall (λ (q : Path) (_ : node), ¬ (root `suffix_of` q ∧ q ≠ root)) fs.
Proof.
  split.
  - intros H q n Hq [Hs Hne]. rewrite H in Hq; done.
  - intros H q Hs Hne. destruct (fs !! q) as [n|] eqn:E; [|done].
    by destruct (H q n E).
Qed.

#[export] Instance empty_below_dec root fs : Decision (empty_below root fs).
Proof.
  refine (cast_if (decide (map_Forall
    (λ (q : Path) (_ : node), ¬ (root `suffix_of` q ∧ q ≠ root)) fs)));
    abstract (by rewrite empty_below_alt).
Defined.

Lemma made_dir_alt (root q : Path) :
  made_dir root q ↔
    Exists (λ rel, q `suffix_of` root // rel) DIRS ∨
    Exists (λ e : string * string, q `suffix_of` parent (root // e.1)) FILES.
Proof.
  unfold made_dir. rewrite !Exists_exists. split.
  - intros [(rel & ? & ?)|(rel & c & ? & ?)]; [left; by exists rel|].
    right. by exists (rel, c).
  - intros [(rel & ? & ?)|([rel c] & ? & ?)]; [left; by exists rel|].
    right. by exists rel, c.
Qed.

#[export] Instance made_dir_dec root q : Decision (made_dir root q).
Proof.
  refine (cast_if (decide (
    Exists (λ rel, q `suffix_of` root // rel) DIRS ∨
    Exists (λ e : string * string, q `suffix_of` parent (root // e.1)) FILES)));
    abstract (by rewrite made_dir_alt).
Defined.

Lemma unobstructed_alt (root : Path) (fs : FS) :
  unobstructed root fs ↔
    map_Forall (λ (q : Path) (n : node), made_dir root q → ¬ is_file (Some n)) fs.
Proof.
  split.
  - intros H q n Hq Hm. rewrite <- Hq. by apply H.
  - intros H q Hm. destruct (fs !! q) as [n|] eqn:E; [|by intros []].
    by apply (H q n).
Qed.

#[export] Instance unobstructed_dec root fs : Decision (unobstructed root fs).
Proof.
  refine (cast_if (decide (map_Forall
    (λ (q : Path) (n : node), made_dir root q → ¬ is_file (Some n)) fs)));
    abstract (by rewrite unobstructed_alt).
Defined.

Lemma files_writable_alt (root : Path) (fs : FS) :
  files_writable root fs ↔
    Forall (λ e : string * string, fs !! (root // e.1) ≠ Some Dir) ALL_FILES.
Proof.
  unfold files_writable. rewrite Forall_forall. split.
  - intros H [rel c] Hin. by apply (H rel c).
  - intros H rel c Hin. by apply (H (rel, c)).
Qed.

#[export] Instance files_writable_dec root fs : Decision (files_writable root fs).
Proof.
  refine (cast_if (decide (
    Forall (λ e : string * string, fs !! (root // e.1) ≠ Some Dir) ALL_FILES)));
    abstract (by rewrite files_writable_alt).
Defined.

Lemma elem_of_suffixes (p q : Path) : q ∈ suffixes p ↔ q `suffix_of` p.
Proof.
  induction p as [|c par IH]; simpl.
  - rewrite list_elem_of_singleton. split; [by intros ->|apply suffix_nil_inv].
  - rewrite elem_of_cons, IH. split.
    + intros [->|H]; [done|by apply suffix_cons_r].
    + intros [[|c' k] E]; [by left|]. right. injection E as -> ->. by exists k.
Qed.

(** ** The directories of the table files are listed *)

Lemma tables_parents_listed_ok : tables_parents_listed.
Proof. apply (bool_decide_unpack _). vm_compute. exact I. Qed.

(** So every place where a run may make a directory is a listed directory
    or an ancestor of one. *)
Lemma made_dir_listed root q :
  made_dir root q ↔ ∃ rel, rel ∈ DIRS ∧ q `suffix_of` root // rel.
Proof.
  split; [|intros H; by left].
  intros [H|(rel & c & Hin & Hs)]; [done|].
  rewrite (parent_joinpath root rel c) in Hs by by apply FILES_ALL_FILES.
  pose proof tables_parents_listed_ok as H. unfold tables_parents_listed in H.
  rewrite Forall_forall in H. destruct (H _ Hin) as [E|(d & Hd & E)%Exists_exists];
    simpl in E.
  - exists "apps". split; [apply apps_in_DIRS|].
    rewrite E in Hs. simpl in Hs. etrans; [exact Hs|]. by apply suffix_cons_r.
  - exists d. split; [done|].
    destruct (joinpath_dir root d Hd) as [-> _]. by rewrite <- E.
Qed.

Lemma unobstructed_dirs root fs : unobstructed root fs ↔ dirs_unobstructed root fs.
Proof.
  split.
  - intros H rel q Hrel Hq. apply H. left. by exists rel.
  - intros H q (rel & Hrel & Hq)%made_dir_listed. by apply (H rel).
Qed.

(** ** When [mkdir] raises *)

Lemma wf_below_file (fs : FS) (p q : Path) :
  wf fs → is_file (fs !! q) → q `suffix_of` p → q ≠ p → fs !! p = None.
Proof.
  intros Hwf Hq Hs Hne. destruct (fs !! p) as [n|] eqn:E; [|done].
  rewrite (wf_suffix_dir fs p q) in Hq; [done|done|by rewrite E|done|done].
Qed.

Lemma mkdir_parents_on_file (fs : FS) (p : Path) :
  wf fs → is_file (fs !! p) →
  mkdir_parents true p fs = Outcome (Raised FileExistsError) fs [].
Proof.
  intros Hwf Hp. rewrite mkdir_parents_unfold. unfold os_mkdir.
  destruct p as [|c par]; [by rewrite (proj1 Hwf) in Hp|].
  assert (Hpar : fs !! par = Some Dir).
  { apply (proj2 Hwf c). by destruct (fs !! (c :: par)). }
  simpl. rewrite Hpar. destruct (fs !! (c :: par)) as [[|x]|] eqn:E; try done.
  simpl. unfold is_dir. by rewrite E, bool_decide_eq_false_2.
Qed.

Lemma mkdir_parents_below_file (fs : FS) (p q : Path) :
  wf fs → is_file (fs !! q) → q `suffix_of` p → q ≠ p →
  mkdir_parents true p fs = Outcome (Raised NotADirectoryError) fs [].
Proof.
  intros Hwf Hq. induction p as [|c par IH]; intros Hs Hne.
  { apply suffix_nil_inv in Hs. done. }
  assert (Hs' : q `suffix_of` par).
  { destruct Hs as [[|c' k] E]; [done|]. injection E as -> ->. by exists k. }
  assert (Hnone : fs !! (c :: par) = None) by by apply (wf_below_file fs _ q).
  rewrite mkdir_parents_unfold. unfold os_mkdir. simpl.
  destruct (decide (q = par)) as [->|Hne'].
  - destruct (fs !! par) as [[|x]|]; try done.
    simpl. unfold is_dir. by rewrite Hnone, bool_decide_eq_false_2.
  - rewrite (wf_below_file fs par q) by done.
    unfold mbind, M_bind, bind. by rewrite IH.
Qed.

(** On a well-formed file system [mkdir(parents=True, exist_ok=True)]
    either returns, or raises and changes nothing because a regular file is
    at the path or at an ancestor. *)
Lemma mkdir_parents_cases (fs : FS) (p : Path) :
  wf fs →
  completes (mkdir_parents true p fs) ∨
  ∃ q e, q `suffix_of` p ∧ is_file (fs !! q) ∧
         mkdir_parents true p fs = Outcome (Raised e) fs [] ∧
         e = (if decide (q = p) then FileExistsError else NotADirectoryError).
Proof.
  intros Hwf.
  destruct (decide (Exists (λ q, is_file (fs !! q)) (suffixes p)))
    as [(q & Hq & Hf)%Exists_exists|Hno].
  - right. apply elem_of_suffixes in Hq.
    exists q, (if decide (q = p) then FileExistsError else NotADirectoryError).
    split; [done|]. split; [done|]. split; [|done].
    destruct (decide (q = p)) as [->|Hne].
    + by apply mkdir_parents_on_file.
    + by apply (mkdir_parents_below_file fs p q).
  - left. apply mkdir_parents_completes; [done|].
    intros q Hq Hf. apply Hno, Exists_exists. exists q.
    split; [by apply elem_of_suffixes|done].
Qed.

(** [ensure_dirs] does nothing when the listed directories exist. *)
Lemma ensure_dirs_noop root fs :
  wf fs → (∀ rel, rel ∈ DIRS → fs !! (root // rel) = Some Dir) →
  completes (ensure_dirs root fs) ∧ after_dirs root fs = fs.
Proof.
  intros Hwf Hdirs. rewrite ensure_dirs_unfold. apply for_each_noop.
  intros rel Hrel. unfold ensure_dir.
  rewrite completes_then_print, fs_after_then_print, mkdir_unfold.
  by rewrite mkdir_parents_noop by auto.
Qed.

(** ** Running again *)

Lemma adds_dirs_subseteq (p : Path) (fs fs' : FS) : adds_dirs p fs fs' → fs ⊆ fs'.
Proof.
  intros H. apply map_subseteq_spec. intros q n Hq.
  destruct (H q) as [E|(N & _)]; congruence.
Qed.

Lemma res_then_print (m : M unit) line fs :
  res ((m ;; print line) fs) = res (m fs).
Proof. rewrite res_bind. by destruct (res (m fs)) as [[]|e]. Qed.

Lemma ensure_dir_subseteq root rel : step_rel (⊆) (ensure_dir root rel).
Proof. intros fs. eapply adds_dirs_subseteq, ensure_dir_adds. Qed.

Lemma ensure_dir_stable root rel : stable (ensure_dir root rel).
Proof.
  intros fs g Hwf Hwfg. unfold ensure_dir.
  rewrite !res_then_print, !fs_after_then_print, mkdir_unfold. intros Hsub.
  destruct (mkdir_parents_cases fs (root // rel) Hwf)
    as [Hc|(q & e & Hs & Hf & E & He)].
  - rewrite (mkdir_parents_noop _ g); [|done|].
    + split; [|done]. symmetry. by apply completes_unit.
    + eapply lookup_weaken; [|exact Hsub]. by apply mkdir_parents_dir.
  - rewrite E in Hsub |- *. simpl in Hsub.
    assert (Hfg : is_file (g !! q)).
    { destruct (fs !! q) as [[|x]|] eqn:Eq; try done.
      by rewrite (lookup_weaken fs g q (File x)). }
    subst e. destruct (decide (q = root // rel)) as [->|Hne].
    + by rewrite mkdir_parents_on_file.
    + by rewrite (mkdir_parents_below_file g _ q).
Qed.

Lemma for_each_stable {A : Type} (xs : list A) (body : A → M unit) :
  (∀ x, x ∈ xs → stable (body x) ∧ step_rel (⊆) (body x) ∧ step_rel keeps_wf (body x)) →
  stable (for_each xs body).
Proof.
  induction xs as [|x xs IH]; intros Hbody fs g Hwf Hwfg; simpl; [done|].
  destruct (Hbody x) as (Hst & Hsub & Hkeep); [left|].
  assert (Hrest : ∀ y, y ∈ xs →
            stable (body y) ∧ step_rel (⊆) (body y) ∧ step_rel keeps_wf (body y)).
  { intros y Hy. apply Hbody. by right. }
  rewrite !res_bind, !fs_after_bind.
  destruct (res (body x fs)) as [[]|e] eqn:E; intros HF.
  - assert (Hmono : fs_after (body x fs) ⊆ fs_after (for_each xs body (fs_after (body x fs)))).
    { apply (step_rel_for_each (⊆)). intros y Hy. by apply Hrest. }
    destruct (Hst fs g) as [E1 E2]; [done|done|by etrans|].
    rewrite E1, E, E2. apply IH; [done|by apply Hkeep|done|done].
  - destruct (Hst fs g) as [E1 E2]; [done..|]. by rewrite E1, E, E2.
Qed.

(** A second [ensure_dirs] ends as the first did and changes nothing. *)
Lemma ensure_dirs_stable root fs :
  wf fs →
  res (ensure_dirs root (after_dirs root fs)) = res (ensure_dirs root fs) ∧
  after_dirs root (after_dirs root fs) = after_dirs root fs.
Proof.
  intros Hwf. rewrite ensure_dirs_unfold.
  apply (for_each_stable DIRS (ensure_dir root)); [|done| |done].
  - intros rel _. split; [apply ensure_dir_stable|].
    split; [apply ensure_dir_subseteq|apply ensure_dir_wf].
  - rewrite <- ensure_dirs_unfold. by apply ensure_dirs_wf.
Qed.

(** ** Exactly when a run completes *)

Lemma ensure_dirs_completes_iff root fs :
  wf fs → completes (ensure_dirs root fs) ↔ dirs_unobstructed root fs.
Proof.
  intros Hwf. split.
  - intros Hc rel q Hrel Hq Hfile.
    destruct (fs !! q) as [[|c]|] eqn:E; try done.
    apply (effect_skip_keeps root fs (after_dirs root fs)) in E;
      [|apply ensure_dirs_effect].
    rewrite (wf_ancestors_dir _ (root // rel) q) in E; [done| | |done].
    + by apply ensure_dirs_wf.
    + by apply ensure_dirs_dirs.
  - intros Hun. apply (ensure_dirs_ready root false fs).
    split; [done|]. split; [by apply unobstructed_dirs|]. intros [=].
Qed.

Lemma skip_run_completes_iff root fs :
  wf fs → completes (scaffold root false fs) ↔ dirs_unobstructed root fs.
Proof.
  intros Hwf. split.
  - intros (Hc & _)%scaffold_completes. by apply ensure_dirs_completes_iff in Hc.
  - intros Hun. apply scaffold_ready.
    split; [done|]. split; [by apply unobstructed_dirs|]. intros [=].
Qed.

Lemma force_run_completes_iff root fs :
  wf fs →
  completes (scaffold root true fs) ↔
    dirs_unobstructed root fs ∧ files_writable root fs.
Proof.
  intros Hwf. split.
  - intros Hc. split.
    + apply scaffold_completes in Hc as (Hc & _).
      by apply ensure_dirs_completes_iff in Hc.
    + intros rel content Hin Hdir.
      apply (effect_dir root true fs (fs_after (scaffold root true fs))) in Hdir;
        [|apply scaffold_effect].
      by rewrite (force_run_canonical root fs rel content) in Hdir.
  - intros [Hun Hw]. apply scaffold_ready.
    split; [done|]. split; [by apply unobstructed_dirs|done].
Qed.

(** A run leaves the conditions of a run as they were. *)
Lemma effect_dirs_unobstructed_iff root force fs fs' :
  effect root force fs fs' →
  dirs_unobstructed root fs' ↔ dirs_unobstructed root fs.
Proof.
  intros He. rewrite <- !unobstructed_dirs. split.
  - intros H q Hq Hf. apply (H q Hq).
    destruct (fs !! q) as [[|c]|] eqn:E; try done.
    destruct (He q) as [E'|[(N & _)|(_ & _ & c' & _ & Hm)]]; [by rewrite E', E|congruence|].
    by destruct (made_file_not_dir root q c').
  - by apply effect_unobstructed with force.
Qed.

Lemma effect_files_writable_iff root force fs fs' :
  effect root force fs fs' →
  files_writable root fs' ↔ files_writable root fs.
Proof.
  intros He. split.
  - intros H rel content Hin Hdir. apply (H rel content Hin).
    by apply (effect_dir root force fs).
  - by apply effect_files_writable with force.
Qed.

Lemma main_ready_iff sp force fs :
  wf fs →
  completes (main sp force fs) ↔
    dirs_unobstructed (detect_repo_root sp) fs ∧
    (force = true → files_writable (detect_repo_root sp) fs).
Proof.
  intros Hwf. rewrite main_completes. destruct force.
  - rewrite force_run_completes_iff by done.
    split; [intros [? ?]; by split|intros [? H]; split; [done|by apply H]].
  - rewrite skip_run_completes_iff by done.
    split; [intros ?; split; [done|intros [=]]|by intros [? _]].
Qed.

#[export] Instance dirs_unobstructed_dec root fs : Decision (dirs_unobstructed root fs).
Proof.
  refine (cast_if (decide (unobstructed root fs)));
    abstract (by rewrite <- unobstructed_dirs).
Defined.

Lemma in_scope_alt (root q : Path) :
  in_scope root q ↔
    Exists (λ rel, q `suffix_of` root // rel) (DIRS ++ FILES.*1 ++ ["package.json"]).
Proof.
  unfold in_scope. rewrite Exists_exists. split.
  - intros (rel & H & Hs). exists rel. split; [|done].
    rewrite !elem_of_app, list_elem_of_singleton. tauto.
  - intros (rel & H & Hs). exists rel. split; [|done].
    revert H. rewrite !elem_of_app, list_elem_of_singleton. tauto.
Qed.

#[export] Instance in_scope_dec root q : Decision (in_scope root q).
Proof.
  refine (cast_if (decide (
    Exists (λ rel, q `suffix_of` root // rel) (DIRS ++ FILES.*1 ++ ["package.json"]))));
    abstract (by rewrite in_scope_alt).
Defined.

(** ** The claims of the specification *)

(** C1.  A table file, or the root manifest, that does not exist before a
    run without [--force] that completes exists afterwards with exactly its
    literal content.  On a well-formed file system such a run completes
    exactly when no regular file is at a listed directory path or at an
    ancestor of one.  On an empty root it completes, every listed directory
    and every file is there, and the manifest declares the workspaces
    [apps/*] and [packages/*]. *)
Theorem C1_absent_files_are_created (sp : Path) (fs : FS) :
  let root := detect_repo_root sp in
  let fs' := fs_after (main sp false fs) in
  (completes (main sp false fs) →
   ∀ rel content, (rel, content) ∈ ALL_FILES → fs !! (root // rel) = None →
     fs' !! (root // rel) = Some (File content)) ∧
  (wf fs → completes (main sp false fs) ↔ dirs_unobstructed root fs) ∧
  (wf fs → fs !! root = Some Dir → empty_below root fs →
   completes (main sp false fs) ∧
   (∀ rel, rel ∈ DIRS → fs' !! (root // rel) = Some Dir) ∧
   (∀ rel content, (rel, content) ∈ ALL_FILES →
      fs' !! (root // rel) = Some (File content))) ∧
  (("package.json", ROOT_PACKAGE_JSON) ∈ ALL_FILES ∧
   contains WORKSPACES ROOT_PACKAGE_JSON = true).
Proof.
  intros root fs'.
  assert (Hcreated : completes (main sp false fs) →
    ∀ rel content, (rel, content) ∈ ALL_FILES → fs !! (root // rel) = None →
      fs' !! (root // rel) = Some (File content)).
  { intros Hc rel content Hin Hn. subst fs'.
    apply (skip_run_created root fs); [done|apply main_effect|done|].
    rewrite main_fs_after. apply (run_files_exist root false fs rel content); [done|].
    by apply (proj1 (main_completes sp false fs)). }
  split; [done|]. split.
  { intros Hwf. rewrite (main_completes sp false fs). by apply skip_run_completes_iff. }
  split; [|split; [apply manifest_ALL_FILES|by vm_compute]].
  intros Hwf Hroot Hempty.
  assert (Hc : completes (main sp false fs)).
  { apply (proj2 (main_completes sp false fs)), scaffold_ready.
    by apply empty_root_ready. }
  split; [done|]. split.
  - intros rel Hin. subst fs'. rewrite main_fs_after.
    apply run_dirs_exist; [done|]. by apply (proj1 (main_completes sp false fs)).
  - intros rel content Hin. apply Hcreated; [done..|].
    destruct (joinpath_file root rel content Hin) as [E Hne].
    apply Hempty; [rewrite E; by apply suffix_app_r|].
    rewrite E. intros Heq. apply (f_equal length) in Heq.
    rewrite length_app in Heq. destruct (rparts rel); [done|simpl in Heq; lia].
Qed.

(** From the repository that holds only the script, [apps/api/src/index.ts]
    is created; from an empty root the run completes and the manifest is
    there. *)
Lemma C1_witness :
  fs_after (main sample_script false sample_fs)
    !! (sample_root // "apps/api/src/index.ts")
    = Some (File (table_content "apps/api/src/index.ts")) ∧
  (completes (main ("generate-monorepo.py" :: empty_root) false empty_root_fs) ∧
   fs_after (main ("generate-monorepo.py" :: empty_root) false empty_root_fs)
     !! (empty_root // "package.json") = Some (File ROOT_PACKAGE_JSON)).
Proof.
  split.
  - refine (proj1 (C1_absent_files_are_created sample_script sample_fs) _
              "apps/api/src/index.ts" (table_content "apps/api/src/index.ts") _ _).
    + by vm_compute.
    + apply (bool_decide_unpack _). by vm_compute.
    + by vm_compute.
  - destruct (proj1 (proj2 (proj2 (C1_absent_files_are_created
                ("generate-monorepo.py" :: empty_root) empty_root_fs))))
      as (Hc & _ & Hfiles).
    + apply (bool_decide_unpack _). by vm_compute.
    + by vm_compute.
    + apply (bool_decide_unpack _). by vm_compute.
    + split; [exact Hc|]. apply Hfiles. apply manifest_ALL_FILES.
Defined.

(** C2.  A table file, or the root manifest, that exists before a run
    without [--force], whatever it holds, is the same afterwards, and a run
    that completes reports it as skipped. *)
Theorem C2_existing_files_are_kept (sp : Path) (fs : FS) (rel content : string) (n : node) :
  (rel, content) ∈ ALL_FILES →
  fs !! (detect_repo_root sp // rel) = Some n →
  fs_after (main sp false fs) !! (detect_repo_root sp // rel) = Some n ∧
  (completes (main sp false fs) → skip_line rel ∈ printed (main sp false fs)).
Proof.
  intros Hin Hn. split.
  - apply (effect_skip_keeps (detect_repo_root sp) fs); [apply main_effect|done].
  - intros Hc. apply main_printed.
    apply (skip_run_reports _ fs rel content); [done|by rewrite Hn|].
    by apply (proj1 (main_completes sp false fs)).
Qed.

(** The [README.md] of the user under [apps] is kept and reported. *)
Lemma C2_witness :
  fs_after (main sample_script false edited_fs) !! (sample_root // "apps/README.md")
    = Some (File "my own notes") ∧
  skip_line "apps/README.md" ∈ printed (main sample_script false edited_fs).
Proof.
  destruct (C2_existing_files_are_kept sample_script edited_fs
              "apps/README.md" (table_content "apps/README.md")
              (File "my own notes")) as [Hkept Hskip].
  - apply (bool_decide_unpack _). by vm_compute.
  - by vm_compute.
  - split; [exact Hkept|]. apply Hskip. by vm_compute.
Defined.

(** C3.  A table file, or the root manifest, that exists before a run with
    [--force] that completes holds exactly its literal content afterwards.
    On a well-formed file system such a run completes exactly when no
    regular file is at a listed directory path or at an ancestor of one and
    no directory is at the path of a file of the run. *)
Theorem C3_force_replaces_existing_files (sp : Path) (fs : FS) (rel content : string) :
  (rel, content) ∈ ALL_FILES →
  is_Some (fs !! (detect_repo_root sp // rel)) →
  (completes (main sp true fs) →
   fs_after (main sp true fs) !! (detect_repo_root sp // rel) = Some (File content)) ∧
  (wf fs →
   completes (main sp true fs) ↔
     dirs_unobstructed (detect_repo_root sp) fs ∧
     files_writable (detect_repo_root sp) fs).
Proof.
  intros Hin _. split.
  - intros Hc. rewrite main_fs_after.
    apply force_run_canonical; [done|].
    by apply (proj1 (main_completes sp true fs)).
  - intros Hwf. rewrite (main_completes sp true fs).
    by apply force_run_completes_iff.
Qed.

(** The [README.md] of the user under [apps] is replaced. *)
Lemma C3_witness :
  fs_after (main sample_script true edited_fs) !! (sample_root // "apps/README.md")
    = Some (File (table_content "apps/README.md")).
Proof.
  refine (proj1 (C3_force_replaces_existing_files sample_script edited_fs
                   "apps/README.md" (table_content "apps/README.md") _ _) _).
  - apply (bool_decide_unpack _). by vm_compute.
  - apply (bool_decide_unpack _). by vm_compute.
  - by vm_compute.
Defined.

(** C4.  On a well-formed file system, a second run without flags leaves
    the file system as the first run left it and ends as the first run
    did: after a first run that completes, the second run completes. *)
Theorem C4_second_run_changes_nothing (sp : Path) (fs : FS) :
  wf fs →
  let first := main sp false fs in
  let second := main sp false (fs_after first) in
  fs_after second = fs_after first ∧
  res second = res first ∧
  (completes first → completes second).
Proof.
  intros Hwf first second.
  enough (H : fs_after second = fs_after first ∧ res second = res first).
  { destruct H as [H1 H2]. split; [done|]. split; [done|].
    unfold completes. by rewrite H2. }
  subst first second. rewrite !main_fs_after, !main_res.
  set (root := detect_repo_root sp).
  pose proof (scaffold_wf root false fs Hwf) as Hwf1.
  destruct (decide (completes (ensure_dirs root fs))) as [Hd|Hd].
  - assert (Hc : completes (scaffold root false fs)).
    { apply skip_run_completes_iff; [done|]. by apply ensure_dirs_completes_iff. }
    set (fs1 := fs_after (scaffold root false fs)) in *.
    assert (H1 : completes (ensure_dirs root fs1) ∧ after_dirs root fs1 = fs1).
    { apply ensure_dirs_noop; [done|]. intros rel Hrel. by apply run_dirs_exist. }
    destruct H1 as [H1 E1].
    assert (Hfiles : ∀ rel content, (rel, content) ∈ ALL_FILES →
              is_Some (fs1 !! (root // rel))).
    { intros rel content Hin. by apply (run_files_exist root false fs rel content). }
    assert (H2 : completes (write_files root false fs1) ∧
                 fs_after (write_files root false fs1) = fs1).
    { unfold write_files. apply for_each_noop. intros [rel content] Hin.
      rewrite write_file_skip; [split; [exact I|reflexivity]|].
      apply (Hfiles rel content). by apply FILES_ALL_FILES. }
    destruct H2 as [H2 E2].
    assert (H3 : create_root_package_json root false fs1 =
                 Outcome (Ok tt) fs1 [skip_line "package.json"]).
    { apply create_skip. apply (Hfiles _ ROOT_PACKAGE_JSON), manifest_ALL_FILES. }
    assert (Hc2 : completes (scaffold root false fs1)).
    { apply (proj2 (scaffold_completes root false fs1)).
      rewrite E1, E2, H3. split; [exact H1|split; [exact H2|exact I]]. }
    split.
    + rewrite (scaffold_fs_after root false fs1 Hc2). by rewrite E1, E2, H3.
    + apply completes_unit in Hc, Hc2. by rewrite Hc, Hc2.
  - destruct (res (ensure_dirs root fs)) as [[]|e] eqn:E.
    { destruct Hd. unfold completes. by rewrite E. }
    destruct (ensure_dirs_stable root fs Hwf) as [E1 E2]. rewrite E in E1.
    assert (Hfs : fs_after (scaffold root false fs) = after_dirs root fs).
    { unfold scaffold. by rewrite fs_after_bind, E. }
    assert (Hres : res (scaffold root false fs) = Raised e).
    { unfold scaffold. by rewrite res_bind, E. }
    rewrite Hfs, Hres. unfold scaffold.
    by rewrite fs_after_bind, res_bind, E1, E2.
Qed.

(** The second run on the repository with the [README.md] of the user. *)
Lemma C4_witness :
  fs_after (main sample_script false (fs_after (main sample_script false edited_fs)))
    = fs_after (main sample_script false edited_fs) ∧
  completes (main sample_script false (fs_after (main sample_script false edited_fs))).
Proof.
  destruct (C4_second_run_changes_nothing sample_script edited_fs)
    as (Hsame & _ & Hcompletes).
  - apply (bool_decide_unpack _). by vm_compute.
  - split; [exact Hsame|]. apply Hcompletes. by vm_compute.
Defined.

(** C5.  The claim as stated fails: with a directory at a table path, the
    run without [--force] completes and the run with [--force] after it
    raises [IsADirectoryError], so the path does not hold the literal
    content. *)
Lemma C5_counterexample :
  wf gitignore_dir_fs ∧
  completes (main sample_script false gitignore_dir_fs) ∧
  res (main sample_script true (fs_after (main sample_script false gitignore_dir_fs)))
    = Raised IsADirectoryError ∧
  fs_after (main sample_script true (fs_after (main sample_script false gitignore_dir_fs)))
    !! (sample_root // ".gitignore") ≠ Some (File (table_content ".gitignore")).
Proof.
  split; [apply (bool_decide_unpack _); by vm_compute|].
  split; [by vm_compute|]. split; [by vm_compute|].
  vm_compute. discriminate.
Qed.

(** C5, amended.  A run without [--force] followed by a run with [--force]
    that completes leaves every table file and the root manifest with
    exactly its literal content.  From a well-formed state the run with
    [--force] completes exactly when, before the two runs, no regular file
    is at a listed directory path or at an ancestor of one and no directory
    is at the path of a file of the run; the run without [--force] before
    it then completes too. *)
Theorem C5_skip_then_force_is_canonical (sp : Path) (fs : FS) :
  let root := detect_repo_root sp in
  let fs1 := fs_after (main sp false fs) in
  let fs2 := fs_after (main sp true fs1) in
  (completes (main sp true fs1) →
   ∀ rel content, (rel, content) ∈ ALL_FILES →
     fs2 !! (root // rel) = Some (File content)) ∧
  (wf fs →
   completes (main sp true fs1) ↔ dirs_unobstructed root fs ∧ files_writable root fs) ∧
  (wf fs → completes (main sp true fs1) → completes (main sp false fs)).
Proof.
  intros root fs1 fs2.
  assert (Hiff : wf fs →
    completes (main sp true fs1) ↔ dirs_unobstructed root fs ∧ files_writable root fs).
  { intros Hwf. pose proof (main_effect sp false fs) as He.
    rewrite (main_completes sp true fs1).
    rewrite force_run_completes_iff by by apply main_wf.
    by rewrite (effect_dirs_unobstructed_iff _ false fs fs1 He),
               (effect_files_writable_iff _ false fs fs1 He). }
  split; [|split; [done|]].
  - intros Hc rel content Hin. subst fs2. rewrite main_fs_after.
    apply force_run_canonical; [done|].
    by apply (proj1 (main_completes sp true fs1)).
  - intros Hwf [Hun _]%Hiff; [|done].
    apply (proj2 (main_completes sp false fs)). by apply skip_run_completes_iff.
Qed.

(** Both runs on the repository with the [README.md] of the user. *)
Lemma C5_witness :
  fs_after (main sample_script true (fs_after (main sample_script false edited_fs)))
    !! (sample_root // "apps/README.md") = Some (File (table_content "apps/README.md")) ∧
  completes (main sample_script true (fs_after (main sample_script false edited_fs))).
Proof.
  destruct (C5_skip_then_force_is_canonical sample_script edited_fs)
    as (Hcanon & Hiff & _).
  assert (Hforce : completes
            (main sample_script true (fs_after (main sample_script false edited_fs)))).
  { apply Hiff.
    - apply (bool_decide_unpack _). by vm_compute.
    - split; apply (bool_decide_unpack _); by vm_compute. }
  split; [|exact Hforce].
  apply (Hcanon Hforce "apps/README.md" (table_content "apps/README.md")).
  apply (bool_decide_unpack _). by vm_compute.
Defined.

(** C6.  The claim as stated fails: with a regular file at a listed
    directory path, [ensure_dirs] raises [FileExistsError] and the path is
    no directory afterwards. *)
Lemma C6_counterexample :
  wf apps_file_fs ∧ "apps" ∈ DIRS ∧
  res (ensure_dirs sample_root apps_file_fs) = Raised FileExistsError ∧
  fs_after (ensure_dirs sample_root apps_file_fs) !! (sample_root // "apps") ≠ Some Dir.
Proof.
  split; [apply (bool_decide_unpack _); by vm_compute|].
  split; [apply apps_in_DIRS|]. split; [by vm_compute|].
  vm_compute. discriminate.
Qed.

(** C6, amended.  On a well-formed file system [ensure_dirs] completes
    exactly when no listed directory path and none of its ancestors is a
    regular file, so directories that exist raise no error.  When it
    completes, every listed directory and every ancestor exists.  In every
    case what existed before is unchanged, and a second call ends as the
    first did and changes nothing. *)
Theorem C6_ensure_dirs_creates_directories (root : Path) (fs : FS) :
  wf fs →
  (completes (ensure_dirs root fs) ↔ dirs_unobstructed root fs) ∧
  (completes (ensure_dirs root fs) →
   ∀ rel q, rel ∈ DIRS → q `suffix_of` root // rel →
     after_dirs root fs !! q = Some Dir) ∧
  (∀ (q : Path) n, fs !! q = Some n → after_dirs root fs !! q = Some n) ∧
  (res (ensure_dirs root (after_dirs root fs)) = res (ensure_dirs root fs) ∧
   after_dirs root (after_dirs root fs) = after_dirs root fs).
Proof.
  intros Hwf.
  split; [by apply ensure_dirs_completes_iff|].
  split; [|split; [|by apply ensure_dirs_stable]].
  - intros Hc rel q Hrel Hq.
    apply (wf_ancestors_dir _ (root // rel)); [by apply ensure_dirs_wf| |done].
    by apply ensure_dirs_dirs.
  - intros q n. apply effect_skip_keeps with root. apply ensure_dirs_effect.
Qed.

(** [ensure_dirs] on the repository with the [README.md] of the user. *)
Lemma C6_witness :
  completes (ensure_dirs sample_root edited_fs) ∧
  after_dirs sample_root edited_fs !! (sample_root // "infra/terraform") = Some Dir ∧
  after_dirs sample_root edited_fs !! (sample_root // "apps/README.md")
    = Some (File "my own notes").
Proof.
  destruct (C6_ensure_dirs_creates_directories sample_root edited_fs)
    as (Hiff & Hdirs & Hkeep & _).
  - apply (bool_decide_unpack _). by vm_compute.
  - assert (Hc : completes (ensure_dirs sample_root edited_fs)).
    { apply Hiff. apply (bool_decide_unpack _). by vm_compute. }
    split; [exact Hc|]. split.
    + apply (Hdirs Hc "infra/terraform"); [|done].
      apply (bool_decide_unpack _). by vm_compute.
    + apply Hkeep. by vm_compute.
Defined.
(** C7.  A turn of [write_files] that does not skip makes the parent
    directory itself and then writes: when [mkdir] has returned, the parent
    of the file is a directory in the state handed to [write_text], which
    therefore does not fail for a missing parent.  No directory has to
    exist beforehand: after [write_files] alone has completed, every table
    file exists in a directory. *)
Theorem C7_parent_exists_when_writing
    (root : Path) (force : bool) (fs : FS) (rel content : string) :
  (rel, content) ∈ FILES →
  let path := root // rel in
  let at_write := fs_after (mkdir true true (parent path) fs) in
  (force = true ∨ fs !! path = None →
   write_file root force (rel, content) fs =
     (mkdir true true (parent path) ;;
      write_text path content ;;
      print (write_line rel)) fs) ∧
  (completes (mkdir true true (parent path) fs) →
   at_write !! parent path = Some Dir ∧
   res (write_text path content at_write) ≠ Raised FileNotFoundError ∧
   res (write_text path content at_write) ≠ Raised NotADirectoryError) ∧
  (wf fs → completes (write_files root force fs) →
   is_Some (fs_after (write_files root force fs) !! path) ∧
   fs_after (write_files root force fs) !! parent path = Some Dir).
Proof.
  intros Hin path at_write. split; [|split].
  - apply write_file_write.
  - intros Hc. assert (Hdir : at_write !! parent path = Some Dir)
      by by apply mkdir_parents_dir.
    split; [done|]. unfold write_text. rewrite Hdir.
    by destruct (at_write !! path) as [[|?]|].
  - intros Hwf Hc.
    destruct (write_files_turn root force fs rel content Hc Hin)
      as (fs1 & _ & Hc1 & Hrest & _).
    assert (Hex : is_Some (fs_after (write_files root force fs) !! path)).
    { eapply effect_is_Some; [exact Hrest|]. by apply write_file_exists. }
    split; [done|].
    apply (wf_suffix_dir _ path); [|done|apply parent_suffix|].
    + revert Hwf. apply (step_rel_for_each keeps_wf). intros e _. apply write_file_wf.
    + assert (Hne : path ≠ []).
      { eapply joinpath_file_ne. by apply FILES_ALL_FILES. }
      destruct path; [done|]. simpl. intros E.
      apply (f_equal length) in E. simpl in E. lia.
Qed.

Lemma C7_witness :
  sample_fs !! (sample_root // "apps/api/src") = None ∧
  fs_after (mkdir true true (sample_root // "apps/api/src") sample_fs)
    !! (sample_root // "apps/api/src") = Some Dir ∧
  fs_after (write_files sample_root false sample_fs)
    !! (sample_root // "apps/api/src") = Some Dir.
Proof.
  destruct (C7_parent_exists_when_writing sample_root false sample_fs
              "apps/api/src/index.ts" (table_content "apps/api/src/index.ts"))
    as (_ & Hmk & Hall).
  - apply (bool_decide_unpack _). by vm_compute.
  - split; [by vm_compute|]. split.
    + apply Hmk. by vm_compute.
    + apply Hall; [apply (bool_decide_unpack _)|]; by vm_compute.
Defined.

(** C8.  [detect_repo_root] is total.  It returns the grandparent of the
    script when the directory of the script is named [scripts], and the
    directory of the script otherwise. *)
Theorem C8_detect_repo_root :
  (∀ sp : Path,
     (name (parent sp) = "scripts" → detect_repo_root sp = parent (parent sp)) ∧
     (name (parent sp) ≠ "scripts" → detect_repo_root sp = parent sp)) ∧
  (∀ (file : string) (dir : Path),
     detect_repo_root (file :: "scripts" :: dir) = dir) ∧
  (∀ (file d : string) (dir : Path),
     d ≠ "scripts" → detect_repo_root (file :: d :: dir) = d :: dir) ∧
  (∀ file : string, detect_repo_root [file] = []).
Proof.
  split; [|split; [done|split; [|done]]].
  - intros sp. unfold detect_repo_root.
    destruct (String.eqb_spec (name (parent sp)) "scripts"); by split.
  - intros file d dir Hd. unfold detect_repo_root. simpl.
    by destruct (String.eqb_spec d "scripts").
Qed.

Lemma C8_witness :
  detect_repo_root sample_script = sample_root ∧
  detect_repo_root ("generate-monorepo.py" :: sample_root) = sample_root.
Proof.
  destruct C8_detect_repo_root as (Hgen & _ & Hother & _). split.
  - apply (proj1 (Hgen sample_script)). reflexivity.
  - apply (Hother "generate-monorepo.py" "repo" ["u"; "home"]). discriminate.
Defined.

(** C9.  A run, with or without [--force] and whether or not it completes,
    removes nothing, and leaves every path as it was unless the path is a
    listed directory, a table file, the root manifest or an ancestor of
    one of these. *)
Theorem C9_run_touches_only_its_paths (sp : Path) (force : bool) (fs : FS) (q : Path) :
  let root := detect_repo_root sp in
  let fs' := fs_after (main sp force fs) in
  (is_Some (fs !! q) → is_Some (fs' !! q)) ∧
  (¬ in_scope root q → fs' !! q = fs !! q).
Proof.
  intros root fs'. pose proof (main_effect sp force fs) as He. split.
  - by apply effect_is_Some with root force.
  - intros Hout. destruct (He q) as [E|[(_ & _ & Hd)|(_ & _ & c & _ & Hm)]]; [done|..];
      destruct Hout.
    + destruct Hd as [(rel & Hrel & Hs)|(rel & c & Hrel & Hs)].
      * exists rel. split; [by left|done].
      * exists rel. split.
        -- right. left. apply list_elem_of_fmap. by exists (rel, c).
        -- etrans; [exact Hs|apply parent_suffix].
    + destruct Hm as (rel & Hrel & ->). exists rel. split; [|done].
      right. apply elem_of_app in Hrel as [Hrel|Hrel].
      * left. apply list_elem_of_fmap. by exists (rel, c).
      * right. by apply list_elem_of_singleton in Hrel as [= -> ->].
Qed.

Lemma C9_witness :
  fs_after (main sample_script true edited_fs) !! sample_script
    = Some (File "#!/usr/bin/env python3").
Proof.
  refine (eq_trans (proj2 (C9_run_touches_only_its_paths
                             sample_script true edited_fs sample_script) _) _).
  - apply (bool_decide_unpack _). by vm_compute.
  - by vm_compute.
Defined.

(** C10.  Without [--force] the test is for any node at the path, a
    directory as well as a regular file: the turn of such an entry returns
    without an exception, changes nothing and prints the skip line; the
    node is the same after the whole run; and from a well-formed state with
    no regular file in place of a directory the run completes and reports
    the entry as skipped. *)
Theorem C10_skip_tests_existence
    (sp : Path) (fs : FS) (rel content : string) (n : node) :
  let root := detect_repo_root sp in
  (rel, content) ∈ ALL_FILES →
  fs !! (root // rel) = Some n →
  ((rel, content) ∈ FILES →
   write_file root false (rel, content) fs = Outcome (Ok tt) fs [skip_line rel]) ∧
  (rel = "package.json" →
   create_root_package_json root false fs = Outcome (Ok tt) fs [skip_line rel]) ∧
  fs_after (main sp false fs) !! (root // rel) = Some n ∧
  (wf fs → dirs_unobstructed root fs →
   completes (main sp false fs) ∧ skip_line rel ∈ printed (main sp false fs)).
Proof.
  intros root Hin Hn.
  assert (Hex : is_Some (fs !! (root // rel))) by by rewrite Hn.
  split; [|split; [|split]].
  - intros _. by apply write_file_skip.
  - intros ->. by apply create_skip.
  - apply (effect_skip_keeps root fs); [apply main_effect|done].
  - intros Hwf Hun.
    assert (Hc : completes (scaffold root false fs)).
    { by apply skip_run_completes_iff. }
    split; [by apply (proj2 (main_completes sp false fs))|].
    apply main_printed. by apply (skip_run_reports root fs rel content).
Qed.

Lemma C10_witness :
  write_file sample_root false (".gitignore", table_content ".gitignore") gitignore_dir_fs
    = Outcome (Ok tt) gitignore_dir_fs [skip_line ".gitignore"] ∧
  fs_after (main sample_script false gitignore_dir_fs) !! (sample_root // ".gitignore")
    = Some Dir ∧
  completes (main sample_script false gitignore_dir_fs) ∧
  skip_line ".gitignore" ∈ printed (main sample_script false gitignore_dir_fs).
Proof.
  destruct (C10_skip_tests_existence sample_script gitignore_dir_fs
              ".gitignore" (table_content ".gitignore") Dir)
    as (Hturn & _ & Hkept & Hrun).
  - apply (bool_decide_unpack _). by vm_compute.
  - by vm_compute.
  - split; [|split; [exact Hkept|]].
    + apply Hturn. apply (bool_decide_unpack _). by vm_compute.
    + apply Hrun; apply (bool_decide_unpack _); by vm_compute.
Defined.

(** * Further properties of the code *)

(** ** The state after a run that completes *)

Lemma file_at_elem root q table c :
  file_at root q table = Some c → ∃ rel, (rel, c) ∈ table ∧ q = root // rel.
Proof.
  induction table as [|[rel c'] table IH]; simpl; [done|].
  destruct (decide (root // rel = q)) as [<-|Hne].
  - intros [= ->]. exists rel. split; [left|done].
  - intros (rel' & Hin & ->)%IH. exists rel'. split; [by right|done].
Qed.

Lemma file_at_found root rel c table :
  (rel, c) ∈ table → is_Some (file_at root (root // rel) table).
Proof.
  induction table as [|[rel' c'] table IH]; simpl.
  - by intros ?%elem_of_nil.
  - destruct (decide (root // rel' = root // rel)); [done|].
    intros [[= -> ->]|Hin]%elem_of_cons; [done|by apply IH].
Qed.

Lemma file_at_made root q c : file_at root q ALL_FILES = Some c ↔ made_file root q c.
Proof.
  split; [apply file_at_elem|].
  intros (rel & Hin & ->).
  destruct (file_at_found root rel c ALL_FILES Hin) as [c' E]. rewrite E.
  f_equal. apply (made_file_functional root (root // rel)); [|by exists rel].
  by apply file_at_elem.
Qed.

Lemma listed_dir_made root q : listed_dir root q ↔ made_dir root q.
Proof.
  unfold listed_dir. rewrite Exists_exists. symmetry. apply made_dir_listed.
Qed.

(** Every listed directory and every ancestor of one is a directory after
    a run that completes on a well-formed file system. *)
Lemma run_listed_dirs root force fs q :
  wf fs → completes (scaffold root force fs) → listed_dir root q →
  fs_after (scaffold root force fs) !! q = Some Dir.
Proof.
  intros Hwf Hc (rel & Hrel & Hq)%Exists_exists.
  apply (wf_ancestors_dir _ (root // rel)); [by apply scaffold_wf| |done].
  by apply run_dirs_exist.
Qed.

Lemma scaffold_final_node root force fs q :
  wf fs → completes (scaffold root force fs) →
  fs_after (scaffold root force fs) !! q = final_node root force fs q.
Proof.
  intros Hwf Hc. unfold final_node.
  pose proof (scaffold_effect root force fs) as He.
  destruct (file_at root q ALL_FILES) as [c|] eqn:E.
  - apply file_at_made in E. pose proof E as (rel & Hin & ->).
    destruct force.
    + by apply force_run_canonical.
    + destruct (fs !! (root // rel)) as [n|] eqn:En.
      * by apply (effect_skip_keeps root fs).
      * apply (skip_run_created root fs); [done..|].
        by apply (run_files_exist root false fs rel c).
  - destruct (decide (listed_dir root q)) as [Hd|Hd].
    + by apply run_listed_dirs.
    + destruct (He q) as [Eq|[(_ & _ & Hm)|(_ & _ & c & _ & Hm)]]; [done|..].
      * by apply listed_dir_made in Hm.
      * apply file_at_made in Hm. congruence.
Qed.

Lemma final_node_stable root force fs fs' (q : Path) :
  (∀ q, fs' !! q = final_node root true fs q) →
  final_node root force fs' q = fs' !! q.
Proof.
  intros H. unfold final_node. rewrite !H. unfold final_node.
  destruct (file_at root q ALL_FILES) as [c|]; [by destruct force|].
  by destruct (decide (listed_dir root q)).
Qed.

(** The conditions of a run before and after a run. *)
Lemma main_conditions_kept sp force fs :
  let root := detect_repo_root sp in
  let fs' := fs_after (main sp force fs) in
  (dirs_unobstructed root fs' ↔ dirs_unobstructed root fs) ∧
  (files_writable root fs' ↔ files_writable root fs).
Proof.
  intros root fs'. pose proof (main_effect sp force fs) as He. split.
  - by apply (effect_dirs_unobstructed_iff root force).
  - by apply (effect_files_writable_iff root force).
Qed.

Lemma main_final_node sp force fs q :
  wf fs → completes (main sp force fs) →
  fs_after (main sp force fs) !! q = final_node (detect_repo_root sp) force fs q.
Proof.
  intros Hwf Hc. rewrite main_fs_after. apply scaffold_final_node; [done|].
  by apply (proj1 (main_completes sp force fs)).
Qed.

(** X1.  The state after a run that completes on a well-formed file system
    is determined path by path from the state before: a file of the run
    holds its literal content, unless it existed and [--force] is off; a
    listed directory or an ancestor of one is a directory; every other path
    is as it was. *)
Theorem X1_state_after_completed_run (sp : Path) (force : bool) (fs : FS) (q : Path) :
  wf fs → completes (main sp force fs) →
  fs_after (main sp force fs) !! q = final_node (detect_repo_root sp) force fs q.
Proof. apply main_final_node. Qed.

(** After a run on the repository with the [README.md] of the user, [docs]
    is a directory, the [README.md] is kept and the script is as it was. *)
Lemma X1_witness :
  fs_after (main sample_script false edited_fs) !! (sample_root // "docs") = Some Dir ∧
  fs_after (main sample_script false edited_fs) !! (sample_root // "apps/README.md")
    = Some (File "my own notes") ∧
  fs_after (main sample_script false edited_fs) !! sample_script
    = Some (File "#!/usr/bin/env python3").
Proof.
  assert (Hwf : wf edited_fs) by (apply (bool_decide_unpack _); by vm_compute).
  assert (Hc : completes (main sample_script false edited_fs)) by by vm_compute.
  split; [|split].
  - rewrite (X1_state_after_completed_run sample_script false edited_fs _ Hwf Hc).
    by vm_compute.
  - rewrite (X1_state_after_completed_run sample_script false edited_fs _ Hwf Hc).
    by vm_compute.
  - rewrite (X1_state_after_completed_run sample_script false edited_fs _ Hwf Hc).
    by vm_compute.
Defined.

(** X2.  A run with [--force] ends in the same file system whether or not a
    run without [--force] came before it: when the run with [--force]
    completes from a well-formed state, so do the two runs in a row, and
    the final file systems are equal. *)
Theorem X2_force_absorbs_skip (sp : Path) (fs : FS) :
  wf fs → completes (main sp true fs) →
  completes (main sp false fs) ∧
  completes (main sp true (fs_after (main sp false fs))) ∧
  fs_after (main sp true (fs_after (main sp false fs))) = fs_after (main sp true fs).
Proof.
  intros Hwf Hc.
  pose proof (main_wf sp false fs Hwf) as Hwf1.
  destruct (proj1 (main_ready_iff sp true fs Hwf) Hc) as [Hun Hw].
  assert (Hc1 : completes (main sp false fs)).
  { apply main_ready_iff; [done|]. split; [done|]. intros [=]. }
  destruct (main_conditions_kept sp false fs) as [Hkd Hkw].
  assert (Hc2 : completes (main sp true (fs_after (main sp false fs)))).
  { apply main_ready_iff; [done|]. split; [by apply Hkd|].
    intros _. by apply Hkw, Hw. }
  split; [done|]. split; [done|].
  apply map_eq. intros q.
  rewrite (main_final_node sp true _ q Hwf1 Hc2), (main_final_node sp true fs q Hwf Hc).
  unfold final_node.
  destruct (file_at (detect_repo_root sp) q ALL_FILES) as [c|] eqn:E; [done|].
  destruct (decide (listed_dir (detect_repo_root sp) q)) as [Hd|Hd]; [done|].
  rewrite (main_final_node sp false fs q Hwf Hc1).
  unfold final_node. rewrite E. by destruct (decide (listed_dir _ q)).
Qed.

(** The two orders on the repository with the [README.md] of the user. *)
Lemma X2_witness :
  fs_after (main sample_script true (fs_after (main sample_script false edited_fs)))
    = fs_after (main sample_script true edited_fs).
Proof.
  apply (X2_force_absorbs_skip sample_script edited_fs).
  - apply (bool_decide_unpack _). by vm_compute.
  - by vm_compute.
Defined.

(** X3.  After a run with [--force] that completes on a well-formed file
    system, a further run, with or without [--force], completes and
    changes nothing. *)
Theorem X3_nothing_left_to_do_after_force (sp : Path) (again : bool) (fs : FS) :
  wf fs → completes (main sp true fs) →
  completes (main sp again (fs_after (main sp true fs))) ∧
  fs_after (main sp again (fs_after (main sp true fs))) = fs_after (main sp true fs).
Proof.
  intros Hwf Hc.
  pose proof (main_wf sp true fs Hwf) as Hwf1.
  destruct (proj1 (main_ready_iff sp true fs Hwf) Hc) as [Hun Hw].
  destruct (main_conditions_kept sp true fs) as [Hkd Hkw].
  assert (Hc2 : completes (main sp again (fs_after (main sp true fs)))).
  { apply main_ready_iff; [done|]. split; [by apply Hkd|].
    intros _. by apply Hkw, Hw. }
  split; [done|]. apply map_eq. intros q.
  rewrite (main_final_node sp again _ q Hwf1 Hc2).
  apply final_node_stable with fs. intros q'.
  exact (main_final_node sp true fs q' Hwf Hc).
Qed.

(** A second run with [--force] on the repository with the [README.md] of
    the user. *)
Lemma X3_witness :
  completes (main sample_script true (fs_after (main sample_script true edited_fs))) ∧
  fs_after (main sample_script true (fs_after (main sample_script true edited_fs)))
    = fs_after (main sample_script true edited_fs).
Proof.
  apply (X3_nothing_left_to_do_after_force sample_script true edited_fs).
  - apply (bool_decide_unpack _). by vm_compute.
  - by vm_compute.
Defined.

(** ** The steps of a run *)

Lemma parent_manifest root : parent (root // "package.json") = root.
Proof. done. Qed.



Lemma after_dirs_listed root fs q :
  wf fs → completes (ensure_dirs root fs) → listed_dir root q →
  after_dirs root fs !! q = Some Dir.
Proof.
  intros Hwf Hc (rel & Hrel & Hq)%Exists_exists.
  apply (wf_ancestors_dir _ (root // rel)); [by apply ensure_dirs_wf| |done].
  by apply ensure_dirs_dirs.
Qed.

Lemma effect_after_dirs root force fs :
  completes (ensure_dirs root fs) →
  effect root force (after_dirs root fs) (fs_after (scaffold root force fs)).
Proof.
  intros Hc. apply completes_unit in Hc. unfold scaffold.
  rewrite fs_after_bind, Hc.
  apply (step_rel_bind (effect root force)); [apply write_files_effect|].
  intros _. apply create_effect.
Qed.

(** X5.  In a run on a well-formed file system, once [ensure_dirs] has
    completed, the rest of the run makes no directory: every directory
    there is at the end of the run was there when [ensure_dirs] ended.
    Without [--force] the rest of the run cannot raise. *)
Theorem X5_directories_come_from_ensure_dirs (sp : Path) (force : bool) (fs : FS) :
  let root := detect_repo_root sp in
  wf fs → completes (ensure_dirs root fs) →
  (∀ q : Path, fs_after (main sp force fs) !! q = Some Dir →
     after_dirs root fs !! q = Some Dir) ∧
  (force = false → completes (main sp force fs)).
Proof.
  intros root Hwf Hc. split.
  - intros q. rewrite main_fs_after. fold root. intros Hq.
    destruct (effect_after_dirs root force fs Hc q)
      as [E|[(Hn & _ & Hm)|(_ & _ & c & E & _)]]; [congruence| |congruence].
    rewrite after_dirs_listed in Hn; [done..|]. by apply listed_dir_made.
  - intros ->. apply (proj2 (main_completes sp false fs)).
    apply skip_run_completes_iff; [done|]. by apply ensure_dirs_completes_iff.
Qed.

(** In the repository with a directory named [.gitignore] the run with
    [--force] raises after [ensure_dirs], and [apps/api/src] was made by
    [ensure_dirs]. *)
Lemma X5_witness :
  after_dirs sample_root gitignore_dir_fs !! (sample_root // "apps/api/src") = Some Dir ∧
  completes (main sample_script false gitignore_dir_fs).
Proof.
  destruct (X5_directories_come_from_ensure_dirs sample_script true gitignore_dir_fs)
    as [Hdirs _];
    [apply (bool_decide_unpack _); by vm_compute|by vm_compute|].
  destruct (X5_directories_come_from_ensure_dirs sample_script false gitignore_dir_fs)
    as [_ Hruns];
    [apply (bool_decide_unpack _); by vm_compute|by vm_compute|].
  split; [apply Hdirs; by vm_compute|by apply Hruns].
Defined.

(** ** Where a run writes *)

Lemma tables_spare_script_ok : tables_spare_script.
Proof. apply (bool_decide_unpack _). vm_compute. exact I. Qed.

Lemma joinpath_table root rel :
  rel ∈ DIRS ++ ALL_FILES.*1 → root // rel = rparts rel ++ root ∧ rparts rel ≠ [].
Proof.
  intros Hrel. pose proof tables_relative_ok as H.
  unfold tables_relative in H. rewrite Forall_forall in H.
  destruct (H rel Hrel) as [? ?]. split; [by apply joinpath_relative|done].
Qed.

(** A path a run changes is a path of the tables or an ancestor of one. *)
Lemma effect_changed root force fs fs' (q : Path) :
  effect root force fs fs' → fs' !! q ≠ fs !! q →
  ∃ rel, rel ∈ DIRS ++ ALL_FILES.*1 ∧ q `suffix_of` root // rel.
Proof.
  intros He Hq. destruct (He q) as [E|[(_ & _ & Hd)|(_ & _ & c & _ & Hm)]]; [done|..].
  - apply made_dir_listed in Hd as (rel & Hrel & Hs).
    exists rel. split; [|done]. apply elem_of_app. by left.
  - destruct Hm as (rel & Hrel & ->). exists rel. split; [|done].
    apply elem_of_app. right. apply list_elem_of_fmap. by exists (rel, c).
Qed.

(** X6.  A run never changes the script it is run from, at its place in the
    root or in [scripts], in either mode and whether or not the run
    completes. *)
Theorem X6_script_is_never_touched (dir : Path) (force : bool) (fs : FS) :
  fs_after (main (SCRIPT_NAME :: dir) force fs) !! (SCRIPT_NAME :: dir)
    = fs !! (SCRIPT_NAME :: dir).
Proof.
  set (sp := SCRIPT_NAME :: dir).
  destruct (decide (fs_after (main sp force fs) !! sp = fs !! sp)) as [E|Hne]; [done|].
  destruct (effect_changed _ force fs _ sp (main_effect sp force fs) Hne)
    as (rel & Hrel & Hs).
  destruct (joinpath_table (detect_repo_root sp) rel Hrel) as [E _].
  rewrite E in Hs. clear E.
  pose proof tables_spare_script_ok as H. unfold tables_spare_script in H.
  rewrite Forall_forall in H. destruct (H rel Hrel) as [H1 H2].
  revert Hs. unfold detect_repo_root, sp. simpl.
  destruct (String.eqb_spec (name dir) "scripts") as [Hn|Hn].
  - destruct dir as [|d root]; [done|]. simpl in Hn. subst d. simpl.
    change (SCRIPT_NAME :: "scripts" :: root) with ([SCRIPT_NAME; "scripts"] ++ root).
    by intros ?%suffix_app_inv.
  - change (SCRIPT_NAME :: dir) with ([SCRIPT_NAME] ++ dir).
    by intros ?%suffix_app_inv.
Qed.

Lemma detect_repo_root_above (sp : Path) :
  sp ≠ [] → detect_repo_root sp `suffix_of` sp ∧ detect_repo_root sp ≠ sp.
Proof.
  destruct sp as [|file dir]; [done|]. intros _. unfold detect_repo_root. simpl.
  assert (Hlen : ∀ (k p : Path), k ≠ [] → p ≠ k ++ p).
  { intros k p Hk E. apply (f_equal length) in E. rewrite length_app in E.
    destruct k; [done|simpl in E; lia]. }
  destruct (String.eqb (name dir) "scripts").
  - destruct dir as [|d root]; simpl.
    + split; [by apply suffix_cons_r|]. by apply (Hlen [file]).
    + split; [by exists [file; d]|]. by apply (Hlen [file; d]).
  - split; [by apply suffix_cons_r|]. by apply (Hlen [file]).
Qed.

(** X7.  When the script exists in a well-formed file system, the root a
    run works in is a directory that holds the script, and the run changes
    nothing outside it: a path that is not below the root is as it was, in
    either mode and whether or not the run completes. *)
Theorem X7_run_writes_below_the_root (sp : Path) (force : bool) (fs : FS) (q : Path) :
  let root := detect_repo_root sp in
  wf fs → sp ≠ [] → is_Some (fs !! sp) →
  (root `suffix_of` sp ∧ root ≠ sp ∧ fs !! root = Some Dir) ∧
  (¬ (root `suffix_of` q ∧ q ≠ root) → fs_after (main sp force fs) !! q = fs !! q).
Proof.
  intros root Hwf Hsp Hex.
  destruct (detect_repo_root_above sp Hsp) as [Hs Hne]. fold root in Hs, Hne.
  assert (Hroot : fs !! root = Some Dir) by by apply (wf_suffix_dir fs sp).
  split; [done|]. intros Hout.
  destruct (main_effect sp force fs q) as [E|[(Hn & _ & Hd)|(_ & _ & c & _ & Hm)]];
    [done|..]; fold root in Hd || fold root in Hm.
  - apply made_dir_below in Hd as [Hd|Hd]; [|done].
    by rewrite (wf_ancestors_dir fs root q) in Hn.
  - destruct Hout. destruct Hm as (rel & Hrel & ->).
    destruct (joinpath_file root rel c Hrel) as [-> Hr].
    split; [by apply suffix_app_r|].
    intros E. apply (f_equal length) in E. rewrite length_app in E.
    destruct (rparts rel); [done|simpl in E; lia].
Qed.

(** The directory [/home/u] above the sample repository is as it was after
    a run with [--force]. *)
Lemma X7_witness :
  sample_fs !! sample_root = Some Dir ∧
  fs_after (main sample_script true sample_fs) !! ["u"; "home"] = Some Dir.
Proof.
  destruct (X7_run_writes_below_the_root sample_script true sample_fs ["u"; "home"])
    as [(_ & _ & Hroot) Hout].
  - apply (bool_decide_unpack _). by vm_compute.
  - done.
  - apply (bool_decide_unpack _). by vm_compute.
  - split; [exact Hroot|]. rewrite Hout; [by vm_compute|].
    apply (bool_decide_unpack _). by vm_compute.
Defined.

(** ** The exceptions of a run *)

#[export] Instance run_rel_preorder root force : PreOrder (run_rel root force).
Proof.
  split.
  - intros fs. split; reflexivity.
  - intros fs1 fs2 fs3 [H1 K1] [H2 K2]. split; etrans; done.
Qed.

(** A loop that raises does so in one of its turns, in a state the loop
    reached. *)
Lemma for_each_raised {A : Type} (R : relation FS) `{!PreOrder R}
    (xs : list A) (body : A → M unit) (fs : FS) (e : OSError) :
  (∀ y, y ∈ xs → step_rel R (body y)) →
  res (for_each xs body fs) = Raised e →
  ∃ x fs1, x ∈ xs ∧ R fs fs1 ∧ res (body x fs1) = Raised e.
Proof.
  revert fs. induction xs as [|x xs IH]; intros fs Hbody; simpl; [done|].
  rewrite res_bind. destruct (res (body x fs)) as [[]|e'] eqn:E.
  - intros (y & fs1 & Hy & HR & Hres)%IH.
    + exists y, fs1. split; [by right|]. split; [|done].
      etrans; [|exact HR]. apply Hbody. left.
    + intros z Hz. apply Hbody. by right.
  - intros [= ->]. exists x, fs. split; [left|]. split; [reflexivity|done].
Qed.

Lemma ensure_dir_run_rel root force rel :
  rel ∈ DIRS → step_rel (run_rel root force) (ensure_dir root rel).
Proof. intros Hrel fs. split; [by apply ensure_dir_effect|apply ensure_dir_wf]. Qed.

Lemma write_file_run_rel root force rel content :
  (rel, content) ∈ FILES →
  step_rel (run_rel root force) (write_file root force (rel, content)).
Proof. intros Hin fs. split; [by apply write_file_effect|apply write_file_wf]. Qed.

(** A regular file a run finds at a listed directory or an ancestor of one
    was there before the run. *)
Lemma effect_file_in_the_way root force fs fs' q :
  effect root force fs fs' → listed_dir root q → is_file (fs' !! q) → is_file (fs !! q).
Proof.
  intros He Hq%listed_dir_made Hf.
  destruct (He q) as [E|[(_ & E & _)|(_ & _ & c & _ & Hm)]].
  - by rewrite <- E.
  - by rewrite E in Hf.
  - by destruct (made_file_not_dir root q c).
Qed.

(** A directory a run finds at the path of a file was there before. *)
Lemma effect_dir_at_file root force fs fs' q c :
  effect root force fs fs' → made_file root q c →
  fs' !! q = Some Dir → fs !! q = Some Dir.
Proof.
  intros He Hm Hq.
  destruct (He q) as [E|[(_ & _ & Hd)|(_ & _ & c' & E & _)]]; [congruence| |congruence].
  by destruct (made_file_not_dir root q c).
Qed.

Lemma write_text_raised (p : Path) (content : string) (fs : FS) (e : OSError) :
  fs !! parent p = Some Dir → res (write_text p content fs) = Raised e →
  e = IsADirectoryError ∧ fs !! p = Some Dir.
Proof.
  intros Hpar. unfold write_text. rewrite Hpar.
  destruct (fs !! p) as [[|?]|]; simpl; [|done..]. by intros [= <-].
Qed.

Lemma ensure_dirs_raised root fs e :
  wf fs → res (ensure_dirs root fs) = Raised e →
  ∃ rel q, rel ∈ DIRS ∧ q `suffix_of` root // rel ∧ is_file (fs !! q) ∧
           e = (if decide (q = root // rel) then FileExistsError else NotADirectoryError).
Proof.
  intros Hwf. rewrite ensure_dirs_unfold.
  intros (rel & fs1 & Hrel & [He Hk] & Hres)%(for_each_raised (run_rel root false));
    [|intros y Hy; by apply ensure_dir_run_rel].
  unfold ensure_dir in Hres. rewrite res_then_print, mkdir_unfold in Hres.
  destruct (mkdir_parents_cases fs1 (root // rel) (Hk Hwf))
    as [Hc|(q & e' & Hs & Hf & E & ->)].
  - apply completes_unit in Hc. congruence.
  - rewrite E in Hres. simpl in Hres. injection Hres as <-.
    exists rel, q. split; [done|]. split; [done|]. split; [|done].
    apply (effect_file_in_the_way root false fs fs1); [done| |done].
    apply Exists_exists. by exists rel.
Qed.

Lemma write_file_raised root force fs rel content e :
  wf fs → (rel, content) ∈ FILES →
  fs !! parent (root // rel) = Some Dir →
  res (write_file root force (rel, content) fs) = Raised e →
  e = IsADirectoryError ∧ force = true ∧ fs !! (root // rel) = Some Dir.
Proof.
  intros Hwf Hin Hpar.
  destruct (write_file_cases root force rel content fs) as [[-> Hex]|Hf].
  { by rewrite write_file_skip. }
  rewrite write_file_write by done.
  rewrite res_bind, mkdir_unfold, mkdir_parents_noop by done. simpl.
  rewrite res_then_print. intros [-> Hp]%write_text_raised; [|done].
  split; [done|]. split; [|done].
  destruct Hf as [?|Hn]; [done|congruence].
Qed.

Lemma create_raised root force fs e :
  fs !! root = Some Dir →
  res (create_root_package_json root force fs) = Raised e →
  e = IsADirectoryError ∧ force = true ∧ fs !! (root // "package.json") = Some Dir.
Proof.
  intros Hroot.
  destruct (write_file_cases root force "package.json" ROOT_PACKAGE_JSON fs)
    as [[-> Hex]|Hf].
  { by rewrite create_skip. }
  rewrite create_write by done. rewrite res_then_print.
  intros [-> Hp]%write_text_raised; [|by rewrite parent_manifest].
  split; [done|]. split; [|done].
  destruct Hf as [?|Hn]; [done|congruence].
Qed.

Lemma parent_file_listed root rel content :
  (rel, content) ∈ FILES → listed_dir root (parent (root // rel)).
Proof.
  intros Hin. apply listed_dir_made. right. by exists rel, content.
Qed.

(** What each exception of a run says about the state before it. *)
Lemma scaffold_raised root force fs e :
  wf fs → res (scaffold root force fs) = Raised e →
  match e with
  | FileNotFoundError => False
  | FileExistsError => ∃ rel, rel ∈ DIRS ∧ is_file (fs !! (root // rel))
  | NotADirectoryError =>
      ∃ rel q, rel ∈ DIRS ∧ q `suffix_of` root // rel ∧ q ≠ root // rel ∧
               is_file (fs !! q)
  | IsADirectoryError =>
      force = true ∧
      ∃ rel content, (rel, content) ∈ ALL_FILES ∧ fs !! (root // rel) = Some Dir
  end.
Proof.
  intros Hwf. unfold scaffold. rewrite res_bind.
  destruct (res (ensure_dirs root fs)) as [[]|e1] eqn:E1.
  2:{ intros [= ->]. apply ensure_dirs_raised in E1 as (rel & q & Hrel & Hs & Hf & ->);
        [|done].
      destruct (decide (q = root // rel)) as [->|Hne].
      - by exists rel.
      - by exists rel, q. }
  assert (Hc1 : completes (ensure_dirs root fs)) by by apply completes_unit.
  pose proof (ensure_dirs_wf root fs Hwf) as Hwf1.
  pose proof (ensure_dirs_effect root force fs) as He1.
  rewrite res_bind.
  destruct (res (write_files root force (after_dirs root fs))) as [[]|e2] eqn:E2.
  2:{ intros [= ->]. unfold write_files in E2.
      apply (for_each_raised (run_rel root force)) in E2
        as ([rel content] & fs1 & Hin & [He Hk] & Hres);
        [|intros [r c] Hy; by apply write_file_run_rel].
      apply write_file_raised in Hres as (-> & -> & Hp); [|by apply Hk|done|].
      - split; [done|]. exists rel, content. split; [by apply FILES_ALL_FILES|].
        assert (Hm : made_file root (root // rel) content).
        { exists rel. split; [by apply FILES_ALL_FILES|done]. }
        apply (effect_dir_at_file root true fs _ _ content He1 Hm).
        by apply (effect_dir_at_file root true _ fs1 _ content He Hm).
      - apply (effect_dir root force (after_dirs root fs)); [done|].
        apply after_dirs_listed; [done..|]. by apply (parent_file_listed root rel content). }
  pose proof (write_files_effect root force (after_dirs root fs)) as He2.
  intros (-> & -> & Hp)%create_raised.
  - split; [done|]. exists "package.json", ROOT_PACKAGE_JSON.
    split; [apply manifest_ALL_FILES|].
    assert (Hm : made_file root (root // "package.json") ROOT_PACKAGE_JSON).
    { exists "package.json". split; [apply manifest_ALL_FILES|done]. }
    apply (effect_dir_at_file root true fs _ _ _ He1 Hm).
    by apply (effect_dir_at_file root true _ _ _ _ He2 Hm).
  - apply (effect_dir root force (after_dirs root fs)); [done|].
    by apply root_dir_after_dirs.
Qed.

(** X8.  On a well-formed file system the exception of a run tells what is
    in the way.  A run never raises [FileNotFoundError].  It raises
    [FileExistsError] only for a regular file at a listed directory path,
    [NotADirectoryError] only for a regular file at an ancestor of one, and
    [IsADirectoryError] only with [--force], for a directory at the path of
    a table file or of the manifest. *)
Theorem X8_exceptions_of_a_run (sp : Path) (force : bool) (fs : FS) (e : OSError) :
  let root := detect_repo_root sp in
  wf fs → res (main sp force fs) = Raised e →
  match e with
  | FileNotFoundError => False
  | FileExistsError => ∃ rel, rel ∈ DIRS ∧ is_file (fs !! (root // rel))
  | NotADirectoryError =>
      ∃ rel q, rel ∈ DIRS ∧ q `suffix_of` root // rel ∧ q ≠ root // rel ∧
               is_file (fs !! q)
  | IsADirectoryError =>
      force = true ∧
      ∃ rel content, (rel, content) ∈ ALL_FILES ∧ fs !! (root // rel) = Some Dir
  end.
Proof. intros root Hwf. rewrite main_res. by apply scaffold_raised. Qed.

(** The run with [--force] on the repository with a directory named
    [.gitignore] raises [IsADirectoryError], and a directory is at the path
    of a file. *)
Lemma X8_witness :
  ∃ rel content, (rel, content) ∈ ALL_FILES ∧
                 gitignore_dir_fs !! (sample_root // rel) = Some Dir.
Proof.
  refine (proj2 (X8_exceptions_of_a_run sample_script true gitignore_dir_fs
                   IsADirectoryError _ _)).
  - apply (bool_decide_unpack _). by vm_compute.
  - by vm_compute.
Defined.

(** ** What a run prints *)

Lemma outputs_print line fs : outputs (print line) fs [line].
Proof. split; [done|]. by intros _. Qed.

Lemma outputs_silent (m : M unit) fs : printed (m fs) = [] → outputs m fs [].
Proof. intros E. split; [by rewrite E|]. by intros _. Qed.

Lemma outputs_bind (m k : M unit) fs (out1 out2 : list string) :
  outputs m fs out1 → outputs k (fs_after (m fs)) out2 →
  outputs (m ;; k) fs (out1 ++ out2).
Proof.
  intros [Hp1 Hc1] [Hp2 Hc2]. unfold outputs.
  rewrite printed_bind, completes_seq.
  destruct (res (m fs)) as [[]|e] eqn:E.
  - assert (Hc : completes (m fs)) by by apply completes_unit.
    rewrite (Hc1 Hc). split; [by apply prefix_app|].
    intros [_ Hk]. by rewrite (Hc2 Hk).
  - split; [by apply prefix_app_r|]. intros [Hc _].
    apply completes_unit in Hc. congruence.
Qed.

Lemma outputs_print_then line (k : M unit) fs (out : list string) :
  outputs k fs out → outputs (print line ;; k) fs (line :: out).
Proof. intros H. apply (outputs_bind (print line) k fs [line] out); [apply outputs_print|done]. Qed.

(** A loop whose turns each print their line prints the lines of its
    turns. *)
Lemma for_each_outputs {A : Type} (line : A → string) (Inv : list A → FS → Prop)
    (xs : list A) (body : A → M unit) (fs : FS) :
  (∀ x rest fs, Inv (x :: rest) fs →
     outputs (body x) fs [line x] ∧ Inv rest (fs_after (body x fs))) →
  Inv xs fs → outputs (for_each xs body) fs (line <$> xs).
Proof.
  intros Hbody. revert fs. induction xs as [|x xs IH]; intros fs HI; simpl.
  - split; [done|]. by intros _.
  - destruct (Hbody x xs fs HI) as [Hx HI'].
    apply (outputs_bind (body x) (for_each xs body) fs [line x]); [done|].
    by apply IH.
Qed.

Lemma ensure_dir_outputs root rel fs : outputs (ensure_dir root rel) fs [dir_line rel].
Proof.
  unfold ensure_dir.
  apply (outputs_bind _ _ fs [] [dir_line rel]); [|apply outputs_print].
  apply outputs_silent, mkdir_parents_printed.
Qed.

Lemma ensure_dirs_outputs root fs : outputs (ensure_dirs root) fs dirs_output.
Proof.
  rewrite ensure_dirs_unfold.
  apply (for_each_outputs dir_line (λ _ _, True)); [|done].
  intros rel rest fs' _. split; [apply ensure_dir_outputs|done].
Qed.

(** A turn of [write_files] prints the report line of its file. *)
Lemma write_file_outputs root force rel content fs fs0 :
  fs !! (root // rel) = fs0 !! (root // rel) →
  outputs (write_file root force (rel, content)) fs [report_line root force fs0 rel].
Proof.
  intros E. unfold report_line. rewrite <- E.
  destruct (write_file_cases root force rel content fs) as [[-> Hex]|Hf].
  - rewrite bool_decide_eq_true_2 by done. cbn [andb negb].
    unfold outputs. rewrite write_file_skip by done. simpl. split; [done|by intros _].
  - assert (Eb : bool_decide (is_Some (fs !! (root // rel))) && negb force = false).
    { destruct Hf as [->|Hn]; [by rewrite andb_false_r|].
      rewrite bool_decide_eq_false_2; [done|]. rewrite Hn. by intros [? ?]. }
    rewrite Eb. unfold outputs. rewrite write_file_write by done.
    apply (outputs_bind _ _ fs [] [write_line rel]).
    + apply outputs_silent, mkdir_parents_printed.
    + apply (outputs_bind _ _ _ [] [write_line rel]); [|apply outputs_print].
      apply outputs_silent, write_text_printed.
Qed.

(** A turn of [write_files] changes its path and ancestors of it only. *)
Lemma write_file_touches root force rel content fs (q : Path) :
  ¬ q `suffix_of` root // rel →
  fs_after (write_file root force (rel, content) fs) !! q = fs !! q.
Proof.
  intros Hq.
  destruct (write_file_cases root force rel content fs) as [[-> Hex]|Hf].
  { by rewrite write_file_skip. }
  rewrite write_file_write by done. rewrite fs_after_bind.
  pose proof (mkdir_parents_adds true (parent (root // rel)) fs q) as Hadd.
  assert (Hmk : fs_after (mkdir true true (parent (root // rel)) fs) !! q = fs !! q).
  { destruct Hadd as [E|(_ & _ & Hs)]; [done|]. destruct Hq.
    etrans; [exact Hs|apply parent_suffix]. }
  destruct (res _); [|done]. rewrite fs_after_then_print.
  destruct (write_text_spec (root // rel) content
              (fs_after (mkdir true true (parent (root // rel)) fs)))
    as [(_ & _ & _ & ->)|(_ & ->)]; [|done].
  rewrite lookup_insert_ne; [done|]. by intros <-.
Qed.

Lemma tables_distinct_ok : tables_distinct.
Proof. apply (bool_decide_unpack _). vm_compute. exact I. Qed.

(** The path of a file of the run is no ancestor of the path of another
    table file, and differs from it when the files differ. *)
Lemma file_path_apart root rel c rel' c' :
  (rel, c) ∈ ALL_FILES → (rel', c') ∈ FILES → rparts rel ≠ rparts rel' →
  ¬ root // rel `suffix_of` root // rel'.
Proof.
  intros Hin Hin' Hne Hs.
  destruct (joinpath_file root rel c Hin) as [E _].
  destruct (joinpath_file root rel' c') as [E' Hne']; [by apply FILES_ALL_FILES|].
  rewrite E, E' in Hs. apply suffix_app_inv in Hs.
  pose proof tables_separate_ok as H. unfold tables_separate in H.
  rewrite Forall_forall in H. destruct (H _ Hin) as [_ Hf].
  rewrite Forall_forall in Hf. apply (Hf _ Hin'). simpl.
  destruct Hs as [[|x k] Ek]; [by destruct Hne|].
  rewrite Ek. simpl. by exists k.
Qed.

#[export] Instance same_at_preorder p : PreOrder (same_at p).
Proof. split; [by intros fs|]. intros fs1 fs2 fs3 H1 H2. unfold same_at in *. congruence. Qed.

#[export] Instance adds_listed_dirs_preorder root : PreOrder (adds_listed_dirs root).
Proof.
  split.
  - intros fs q. by left.
  - intros fs1 fs2 fs3 H12 H23 q.
    destruct (H12 q) as [E12|(N1 & D2 & S)], (H23 q) as [E23|(N2 & D3 & S')].
    + left. congruence.
    + right. split; [congruence|done].
    + right. split; [done|]. split; [congruence|done].
    + congruence.
Qed.

Lemma ensure_dirs_adds_listed root : step_rel (adds_listed_dirs root) (ensure_dirs root).
Proof.
  rewrite ensure_dirs_unfold. apply step_rel_for_each; [apply _|].
  intros rel Hrel fs q.
  destruct (ensure_dir_adds root rel fs q) as [E|(N & D & S)]; [by left|right].
  split; [done|]. split; [done|]. apply Exists_exists. by exists rel.
Qed.

(** [ensure_dirs] leaves the paths of the files of the run as they are. *)
Lemma ensure_dirs_keeps_files root fs rel content :
  (rel, content) ∈ ALL_FILES → after_dirs root fs !! (root // rel) = fs !! (root // rel).
Proof.
  intros Hin. destruct (ensure_dirs_adds_listed root fs (root // rel))
    as [E|(_ & _ & Hd%listed_dir_made)]; [done|].
  destruct (made_file_not_dir root (root // rel) content); [by exists rel|done].
Qed.

Lemma FILES_paths_distinct : NoDup (rparts <$> FILES.*1).
Proof.
  pose proof tables_distinct_ok as H. unfold tables_distinct, ALL_FILES in H.
  rewrite !fmap_app in H. by apply NoDup_app in H as (H & _ & _).
Qed.

Lemma manifest_apart rel content :
  (rel, content) ∈ FILES → rparts "package.json" ≠ rparts rel.
Proof.
  intros Hin E.
  pose proof tables_distinct_ok as H. unfold tables_distinct, ALL_FILES in H.
  rewrite !fmap_app in H. apply NoDup_app in H as (_ & H & _).
  apply (H (rparts rel)).
  - apply list_elem_of_fmap. exists rel. split; [done|].
    apply list_elem_of_fmap. by exists (rel, content).
  - rewrite <- E. left.
Qed.

Lemma files_pending_start root fs : files_pending root fs FILES fs.
Proof. split; [done|]. split; [apply FILES_paths_distinct|done]. Qed.

Lemma write_files_outputs_from root force fs0 fs :
  files_pending root fs0 FILES fs →
  outputs (write_files root force) fs (files_output root force fs0).
Proof.
  intros Hstart. unfold write_files, files_output.
  apply (for_each_outputs (λ e, report_line root force fs0 e.1) (files_pending root fs0));
    [|done].
  intros [rel c] rest fs' (Hsub & Hnd & Hst). split.
  - apply write_file_outputs. apply (Hst (rel, c)). left.
  - simpl in Hnd. apply NoDup_cons in Hnd as [Hnotin Hnd].
    split; [|split; [done|]].
    + intros e He. apply Hsub. by right.
    + intros [rel' c'] He. cbn [fst].
      rewrite write_file_touches; [apply (Hst (rel', c')); by right|].
      apply (file_path_apart root rel' c' rel c).
      * apply FILES_ALL_FILES, Hsub. by right.
      * apply Hsub. left.
      * intros E. apply Hnotin. rewrite <- E.
        apply list_elem_of_fmap. exists rel'. split; [done|].
        apply list_elem_of_fmap. by exists (rel', c').
Qed.

Lemma write_files_keeps_manifest root force :
  step_rel (same_at (root // "package.json")) (write_files root force).
Proof.
  apply step_rel_for_each; [apply _|]. intros [rel c] Hin fs.
  apply write_file_touches.
  apply (file_path_apart root "package.json" ROOT_PACKAGE_JSON rel c);
    [apply manifest_ALL_FILES|done|by apply (manifest_apart rel c)].
Qed.

Lemma create_outputs root force fs fs0 :
  fs !! (root // "package.json") = fs0 !! (root // "package.json") →
  outputs (create_root_package_json root force) fs
          [report_line root force fs0 "package.json"].
Proof.
  intros E. unfold report_line. rewrite <- E.
  destruct (write_file_cases root force "package.json" ROOT_PACKAGE_JSON fs)
    as [[-> Hex]|Hf].
  - rewrite bool_decide_eq_true_2 by done. cbn [andb negb].
    unfold outputs. rewrite create_skip by done. simpl. split; [done|by intros _].
  - assert (Eb : bool_decide (is_Some (fs !! (root // "package.json"))) && negb force
                 = false).
    { destruct Hf as [->|Hn]; [by rewrite andb_false_r|].
      rewrite bool_decide_eq_false_2; [done|]. rewrite Hn. by intros [? ?]. }
    rewrite Eb. unfold outputs. rewrite create_write by done.
    apply (outputs_bind _ _ fs [] [write_line "package.json"]); [|apply outputs_print].
    apply outputs_silent, write_text_printed.
Qed.

Lemma main_outputs sp force fs : outputs (main sp force) fs (main_output sp force fs).
Proof.
  unfold main, main_output. set (root := detect_repo_root sp).
  cbn [app]. do 7 apply outputs_print_then.
  apply outputs_bind; [apply ensure_dirs_outputs|].
  cbn [app]. do 2 apply outputs_print_then.
  apply outputs_bind.
  { apply write_files_outputs_from.
    split; [done|]. split; [apply FILES_paths_distinct|].
    intros [rel c] Hin. apply (ensure_dirs_keeps_files root fs rel c).
    by apply FILES_ALL_FILES. }
  cbn [app]. do 2 apply outputs_print_then.
  apply (outputs_bind _ _ _ [_]).
  { apply create_outputs.
    rewrite (write_files_keeps_manifest root force (after_dirs root fs)).
    apply (ensure_dirs_keeps_files root fs _ ROOT_PACKAGE_JSON), manifest_ALL_FILES. }
  do 10 apply outputs_print_then. apply outputs_print.
Qed.

(** X9.  [write_files] prints one line for each table file, in the order of
    the table: the skip line when the path existed before the call and
    [force] is off, the write line otherwise.  A call that raises has
    printed the lines of the files before the one it failed on. *)
Theorem X9_write_files_reports_every_file (root : Path) (force : bool) (fs : FS) :
  printed (write_files root force fs) `prefix_of` files_output root force fs ∧
  (completes (write_files root force fs) →
   printed (write_files root force fs) = files_output root force fs).
Proof. apply write_files_outputs_from, files_pending_start. Qed.

(** X10.  A run that completes prints the banner, the line of every listed
    directory whether or not it was there, the report line of every table
    file and of the manifest as the state before the run decides them, and
    the closing lines.  A run that raises has printed a beginning of
    that. *)
Theorem X10_output_of_a_run (sp : Path) (force : bool) (fs : FS) :
  printed (main sp force fs) `prefix_of` main_output sp force fs ∧
  (completes (main sp force fs) → printed (main sp force fs) = main_output sp force fs).
Proof. apply main_outputs. Qed.

(** [write_files] alone on the repository with the [README.md] of the
    user. *)
Lemma X9_witness :
  printed (write_files sample_root false edited_fs)
    = files_output sample_root false edited_fs ∧
  report_line sample_root false edited_fs "apps/README.md" = skip_line "apps/README.md" ∧
  report_line sample_root false edited_fs "docs/README.md" = write_line "docs/README.md".
Proof.
  split; [|split; by vm_compute].
  apply (proj2 (X9_write_files_reports_every_file sample_root false edited_fs)).
  by vm_compute.
Defined.

(** The run with [--force] on the repository with a directory named
    [.gitignore] raises in [write_files]: it has printed the banner and the
    lines of the directories, and no line of a file. *)
Lemma X10_witness :
  printed (main sample_script false edited_fs) = main_output sample_script false edited_fs ∧
  printed (main sample_script true gitignore_dir_fs)
    `prefix_of` main_output sample_script true gitignore_dir_fs ∧
  length (printed (main sample_script true gitignore_dir_fs)) = 7 + length DIRS + 2.
Proof.
  destruct (X10_output_of_a_run sample_script false edited_fs) as [_ Hall].
  destruct (X10_output_of_a_run sample_script true gitignore_dir_fs) as [Hpre _].
  split; [apply Hall; by vm_compute|]. split; [exact Hpre|by vm_compute].
Defined.

(** X11.  After a run that completes on a well-formed file system, in
    either mode, a run without [--force] completes and reports every table
    file and the manifest as skipped. *)
Theorem X11_second_run_reports_skips (sp : Path) (force : bool) (fs : FS) :
  let root := detect_repo_root sp in
  let fs' := fs_after (main sp force fs) in
  wf fs → completes (main sp force fs) →
  completes (main sp false fs') ∧
  printed (main sp false fs') = main_output sp false fs' ∧
  files_output root false fs' = skip_line <$> FILES.*1 ∧
  report_line root false fs' "package.json" = skip_line "package.json".
Proof.
  intros root fs' Hwf Hc.
  assert (Hwf' : wf fs') by by apply main_wf.
  destruct (proj1 (main_ready_iff sp force fs Hwf) Hc) as [Hun _].
  destruct (main_conditions_kept sp force fs) as [Hkd _].
  assert (Hc2 : completes (main sp false fs')).
  { apply main_ready_iff; [done|]. split; [by apply Hkd|]. intros [=]. }
  assert (Hex : ∀ rel content, (rel, content) ∈ ALL_FILES →
            report_line root false fs' rel = skip_line rel).
  { intros rel content Hin. unfold report_line.
    rewrite bool_decide_eq_true_2; [done|]. subst fs'. rewrite main_fs_after.
    apply (run_files_exist root force fs rel content); [done|].
    by apply (proj1 (main_completes sp force fs)). }
  split; [done|]. split; [by apply main_outputs|]. split.
  - unfold files_output. rewrite <- list_fmap_compose.
    apply list_fmap_ext. intros i [rel content] Hi. simpl.
    apply (Hex rel content), FILES_ALL_FILES. by apply list_elem_of_lookup_2 in Hi.
  - apply (Hex _ ROOT_PACKAGE_JSON), manifest_ALL_FILES.
Qed.

(** A run without [--force] after the run on the repository with the
    [README.md] of the user. *)
Lemma X11_witness :
  files_output sample_root false (fs_after (main sample_script false edited_fs))
    = skip_line <$> FILES.*1.
Proof.
  refine (proj1 (proj2 (proj2 (X11_second_run_reports_skips
                                 sample_script false edited_fs _ _)))).
  - apply (bool_decide_unpack _). by vm_compute.
  - by vm_compute.
Defined.

(** ** What a printed line says *)

Lemma append_inv_head (s t u : string) : s +:+ t = s +:+ u → t = u.
Proof. induction s as [|a s IH]; simpl; [done|]. intros [= H]. by apply IH. Qed.

Lemma dir_line_inj rel rel' : dir_line rel = dir_line rel' → rel = rel'.
Proof.
  unfold dir_line. intros H%append_inv_head. by apply (append_inv_head " ") in H.
Qed.

Lemma write_line_inj rel rel' : write_line rel = write_line rel' → rel = rel'.
Proof.
  unfold write_line. intros H%append_inv_head. by apply (append_inv_head " WRITE: ") in H.
Qed.

Lemma skip_line_inj rel rel' : skip_line rel = skip_line rel' → rel = rel'.
Proof.
  unfold skip_line. intros H%append_inv_head.
  by apply (append_inv_head "  SKIP (exists): ") in H.
Qed.

Lemma skip_line_not_write rel rel' : skip_line rel ≠ write_line rel'.
Proof. unfold skip_line, write_line. simpl. by intros [=]. Qed.

Lemma dir_line_not_write rel rel' : dir_line rel ≠ write_line rel'.
Proof. unfold dir_line, write_line. simpl. by intros [=]. Qed.

Lemma dir_line_not_skip rel rel' : dir_line rel ≠ skip_line rel'.
Proof. unfold dir_line, skip_line. simpl. by intros [=]. Qed.

(** The messages of [main] are no report lines. *)
Lemma messages_not_reports sp rel :
  (dir_line rel ∉ messages sp) ∧ (write_line rel ∉ messages sp) ∧ (skip_line rel ∉ messages sp).
Proof.
  unfold messages, dir_line, write_line, skip_line.
  split; [|split]; intros H;
    repeat (apply elem_of_cons in H as [H|H]; [revert H; simpl; by intros [=]|]);
    by apply elem_of_nil in H.
Qed.

Lemma only_adds_print extra line (k : M unit) fs (o : outcome unit) :
  line ∈ extra → only_adds extra o (k fs) → only_adds extra o ((print line ;; k) fs).
Proof.
  intros Hl H l. simpl. intros [->|Hin]%elem_of_cons; [by left|by apply H].
Qed.

Lemma only_adds_bind extra (m k k' : M unit) fs :
  (∀ fs', only_adds extra (k fs') (k' fs')) →
  only_adds extra ((m ;; k) fs) ((m ;; k') fs).
Proof.
  intros H l. rewrite !printed_bind.
  destruct (res (m fs)) as [[]|e]; [|by right].
  rewrite !elem_of_app. intros [?|Hin]; [right; by left|].
  destruct (H _ l Hin) as [?|?]; [by left|right; by right].
Qed.

Lemma only_adds_end extra (m t : M unit) fs :
  (∀ fs' l, l ∈ printed (t fs') → l ∈ extra) →
  only_adds extra (m fs) ((m ;; t) fs).
Proof.
  intros H l. rewrite printed_bind.
  destruct (res (m fs)) as [[]|e]; [|by right].
  rewrite elem_of_app. intros [?|Hin]; [by right|left]. exact (H _ l Hin).
Qed.

Lemma main_lines sp force fs :
  only_adds (messages sp) (scaffold (detect_repo_root sp) force fs) (main sp force fs).
Proof.
  unfold main, scaffold, messages.
  do 7 (apply only_adds_print; [by repeat constructor|]).
  apply only_adds_bind. intros fs1.
  do 2 (apply only_adds_print; [by repeat constructor|]).
  apply only_adds_bind. intros fs2.
  do 2 (apply only_adds_print; [by repeat constructor|]).
  apply only_adds_end. intros fs3 l. simpl.
  intros H. repeat (apply elem_of_cons in H as [->|H]; [by repeat constructor|]).
  by apply elem_of_nil in H.
Qed.

(** A line a loop printed was printed by one of its turns, in a state the
    loop reached, and the loop ended in a state reached from the end of
    that turn. *)
Lemma for_each_printed_from {A : Type} (R : relation FS) `{!PreOrder R}
    (xs : list A) (body : A → M unit) (fs : FS) (l : string) :
  (∀ y, y ∈ xs → step_rel R (body y)) →
  l ∈ printed (for_each xs body fs) →
  ∃ x fs1, x ∈ xs ∧ R fs fs1 ∧ l ∈ printed (body x fs1) ∧
           R (fs_after (body x fs1)) (fs_after (for_each xs body fs)).
Proof.
  revert fs. induction xs as [|x xs IH]; intros fs Hbody; simpl.
  { by intros ?%elem_of_nil. }
  assert (Hrest : ∀ y, y ∈ xs → step_rel R (body y)).
  { intros y Hy. apply Hbody. by right. }
  rewrite printed_bind, fs_after_bind.
  destruct (res (body x fs)) as [[]|e] eqn:E.
  - intros [Hin|Hin]%elem_of_app.
    + exists x, fs. split; [left|]. split; [reflexivity|]. split; [done|].
      by apply step_rel_for_each.
    + destruct (IH (fs_after (body x fs)) Hrest Hin) as (y & fs1 & Hy & H1 & H2 & H3).
      exists y, fs1. split; [by right|]. split; [|done].
      etrans; [|exact H1]. apply Hbody. left.
  - intros Hin. exists x, fs. split; [left|]. split; [reflexivity|]. split; [done|].
    reflexivity.
Qed.

Lemma ensure_dir_printed root rel fs l :
  l ∈ printed (ensure_dir root rel fs) →
  l = dir_line rel ∧ completes (ensure_dir root rel fs).
Proof.
  unfold ensure_dir. rewrite completes_then_print, printed_bind, mkdir_unfold.
  rewrite mkdir_parents_printed. unfold completes.
  destruct (res (mkdir_parents true (root // rel) fs)) as [[]|e].
  - simpl. by intros ->%list_elem_of_singleton.
  - by intros ?%elem_of_nil.
Qed.

Lemma write_file_printed root force rel content fs l :
  l ∈ printed (write_file root force (rel, content) fs) →
  (l = skip_line rel ∧ force = false ∧ is_Some (fs !! (root // rel))) ∨
  (l = write_line rel ∧ (force = true ∨ fs !! (root // rel) = None) ∧
   completes (write_file root force (rel, content) fs)).
Proof.
  destruct (write_file_cases root force rel content fs) as [[-> Hex]|Hf].
  { rewrite write_file_skip by done. simpl. intros ->%list_elem_of_singleton. by left. }
  intros Hin. right.
  destruct (write_file_outputs root force rel content fs fs eq_refl) as [Hpre Hall].
  destruct (decide (completes (write_file root force (rel, content) fs))) as [Hc|Hc].
  - rewrite (Hall Hc) in Hin. apply list_elem_of_singleton in Hin as ->.
    unfold report_line.
    assert (Eb : bool_decide (is_Some (fs !! (root // rel))) && negb force = false).
    { destruct Hf as [->|Hn]; [by rewrite andb_false_r|].
      rewrite bool_decide_eq_false_2; [done|]. rewrite Hn. by intros [? ?]. }
    by rewrite Eb.
  - exfalso. revert Hin Hc. rewrite write_file_write by done.
    rewrite printed_bind, completes_seq, mkdir_unfold, mkdir_parents_printed.
    destruct (res (mkdir_parents true (parent (root // rel)) fs)) as [[]|e] eqn:E;
      [|by intros ?%elem_of_nil].
    rewrite printed_bind, write_text_printed, completes_then_print. simpl.
    unfold completes at 1 2. rewrite E.
    destruct (res (write_text _ _ _)) as [[]|e']; simpl.
    + intros _ []. done.
    + by intros ?%elem_of_nil.
Qed.

Lemma create_printed root force fs l :
  l ∈ printed (create_root_package_json root force fs) →
  (l = skip_line "package.json" ∧ force = false ∧
   is_Some (fs !! (root // "package.json"))) ∨
  (l = write_line "package.json" ∧ (force = true ∨ fs !! (root // "package.json") = None) ∧
   completes (create_root_package_json root force fs)).
Proof.
  destruct (write_file_cases root force "package.json" ROOT_PACKAGE_JSON fs)
    as [[-> Hex]|Hf].
  { rewrite create_skip by done. simpl. intros ->%list_elem_of_singleton. by left. }
  rewrite create_write by done. rewrite completes_then_print, printed_bind.
  rewrite write_text_printed. unfold completes.
  destruct (res (write_text _ _ _)) as [[]|e]; simpl.
  - intros ->%list_elem_of_singleton. by right.
  - by intros ?%elem_of_nil.
Qed.

(** The lines of the three operations in a run, with the state of each. *)
Lemma scaffold_lines root force fs l :
  l ∈ printed (scaffold root force fs) →
  l ∈ printed (ensure_dirs root fs) ∨
  (completes (ensure_dirs root fs) ∧
   (l ∈ printed (write_files root force (after_dirs root fs)) ∨
    (completes (write_files root force (after_dirs root fs)) ∧
     l ∈ printed (create_root_package_json root force (after_files root force fs))))).
Proof.
  unfold scaffold. rewrite printed_bind.
  destruct (res (ensure_dirs root fs)) as [[]|e] eqn:E1; [|by left].
  assert (Hc1 : completes (ensure_dirs root fs)) by by apply completes_unit.
  rewrite printed_bind.
  destruct (res (write_files root force (after_dirs root fs))) as [[]|e] eqn:E2.
  - assert (Hc2 : completes (write_files root force (after_dirs root fs)))
      by by apply completes_unit.
    rewrite !elem_of_app. intros [?|[?|?]]; [by left|right..].
    + split; [done|]. by left.
    + split; [done|]. right. by split.
  - rewrite elem_of_app. intros [?|?]; [by left|right]. split; [done|]. by left.
Qed.

Lemma scaffold_fs_after_dirs root force fs :
  ¬ completes (ensure_dirs root fs) →
  fs_after (scaffold root force fs) = after_dirs root fs.
Proof.
  intros Hc. unfold scaffold. rewrite fs_after_bind.
  destruct (res (ensure_dirs root fs)) as [[]|e] eqn:E; [|done].
  destruct Hc. by apply completes_unit.
Qed.

Lemma effect_from_dirs root force fs :
  effect root force (after_dirs root fs) (fs_after (scaffold root force fs)).
Proof.
  destruct (decide (completes (ensure_dirs root fs))) as [Hc|Hc].
  - by apply effect_after_dirs.
  - rewrite scaffold_fs_after_dirs by done. reflexivity.
Qed.

Lemma effect_from_files root force fs :
  completes (ensure_dirs root fs) →
  effect root force (after_files root force fs) (fs_after (scaffold root force fs)).
Proof.
  intros Hc. apply completes_unit in Hc. unfold scaffold.
  rewrite !fs_after_bind, Hc.
  destruct (res (write_files root force (after_dirs root fs))) as [[]|e];
    [apply create_effect|reflexivity].
Qed.

(** The directory of a printed directory line exists at the end. *)
Lemma scaffold_dir_line root force fs rel :
  dir_line rel ∈ printed (scaffold root force fs) →
  fs_after (scaffold root force fs) !! (root // rel) = Some Dir.
Proof.
  intros [Hin|[Hc1 [Hin|[Hc2 Hin]]]]%scaffold_lines.
  - rewrite ensure_dirs_unfold in Hin.
    apply (for_each_printed_from (effect root force)) in Hin
      as (x & fs1 & Hx & _ & Hl & Hrest); [|intros y Hy; by apply ensure_dir_effect].
    apply ensure_dir_printed in Hl as [->%dir_line_inj Hc].
    apply (effect_dir root force (after_dirs root fs)); [apply effect_from_dirs|].
    rewrite ensure_dirs_unfold.
    apply (effect_dir root force _ _ _ Hrest). by apply ensure_dir_dir.
  - unfold write_files in Hin.
    apply (for_each_printed_from (effect root force)) in Hin
      as ([r c] & fs1 & Hx & _ & Hl & _); [|intros [r' c'] Hy; by apply write_file_effect].
    apply write_file_printed in Hl as [[Hl _]|[Hl _]].
    + by apply dir_line_not_skip in Hl.
    + by apply dir_line_not_write in Hl.
  - apply create_printed in Hin as [[Hl _]|[Hl _]].
    + by apply dir_line_not_skip in Hl.
    + by apply dir_line_not_write in Hl.
Qed.

(** The file of a printed write line holds its literal content at the
    end. *)
Lemma scaffold_write_line root force fs rel content :
  (rel, content) ∈ ALL_FILES →
  write_line rel ∈ printed (scaffold root force fs) →
  fs_after (scaffold root force fs) !! (root // rel) = Some (File content).
Proof.
  intros Hall.
  assert (Hm : made_file root (root // rel) content) by by exists rel.
  intros [Hin|[Hc1 [Hin|[Hc2 Hin]]]]%scaffold_lines.
  - rewrite ensure_dirs_unfold in Hin.
    apply (for_each_printed_from (effect root force)) in Hin
      as (x & fs1 & Hx & _ & Hl & _); [|intros y Hy; by apply ensure_dir_effect].
    apply ensure_dir_printed in Hl as [Hl _]. symmetry in Hl.
    by apply dir_line_not_write in Hl.
  - unfold write_files in Hin.
    apply (for_each_printed_from (effect root force)) in Hin
      as ([r c] & fs1 & Hx & _ & Hl & Hrest);
      [|intros [r' c'] Hy; by apply write_file_effect].
    apply write_file_printed in Hl as [[Hl _]|[Hl [Hf Hc]]].
    { symmetry in Hl. by apply skip_line_not_write in Hl. }
    apply write_line_inj in Hl as ->.
    assert (c = content) as ->.
    { apply (made_file_functional root (root // r)); [|done].
      exists r. split; [by apply FILES_ALL_FILES|done]. }
    apply (effect_file root force (after_files root force fs));
      [by apply effect_from_files|done|].
    apply (effect_file root force _ _ _ _ Hrest Hm).
    by apply write_file_written.
  - apply create_printed in Hin as [[Hl _]|[Hl [Hf Hc]]].
    { symmetry in Hl. by apply skip_line_not_write in Hl. }
    apply write_line_inj in Hl as ->.
    assert (content = ROOT_PACKAGE_JSON) as ->.
    { apply (made_file_functional root (root // "package.json")); [done|].
      exists "package.json". split; [apply manifest_ALL_FILES|done]. }
    rewrite (scaffold_fs_after root force fs
               (proj2 (scaffold_completes root force fs) (conj Hc1 (conj Hc2 Hc)))).
    exact (create_written root force _ Hf Hc).
Qed.

Ltac in_messages H :=
  unfold messages;
  repeat (apply elem_of_cons in H as [H|H]; [rewrite H; by repeat constructor|]);
  by apply elem_of_nil in H.

(** X12.  What a run has printed is true at its end, also when the run
    raised after it: the directory of a printed directory line exists, the
    file of a printed write line holds its literal content, and the file of
    a printed skip line existed before the run, which was without
    [--force], and is as it was. *)
Theorem X12_reports_are_true (sp : Path) (force : bool) (fs : FS) (rel : string) :
  let root := detect_repo_root sp in
  let fs' := fs_after (main sp force fs) in
  (dir_line rel ∈ printed (main sp force fs) → fs' !! (root // rel) = Some Dir) ∧
  (∀ content, (rel, content) ∈ ALL_FILES →
     write_line rel ∈ printed (main sp force fs) →
     fs' !! (root // rel) = Some (File content)) ∧
  (∀ content, (rel, content) ∈ ALL_FILES →
     skip_line rel ∈ printed (main sp force fs) →
     force = false ∧ is_Some (fs !! (root // rel)) ∧ fs' !! (root // rel) = fs !! (root // rel)).
Proof.
  intros root fs'. subst fs'. rewrite main_fs_after. fold root.
  destruct (messages_not_reports sp rel) as (Hd & Hw & Hs).
  split; [|split].
  - intros [?|Hin]%main_lines; [done|]. by apply scaffold_dir_line.
  - intros content Hall [?|Hin]%main_lines; [done|]. by apply scaffold_write_line.
  - intros content Hall Hin.
    assert (Hout : skip_line rel ∈ main_output sp force fs).
    { destruct (main_outputs sp force fs) as [[k ->] _]. apply elem_of_app. by left. }
    assert (Hrep : ∃ rel', skip_line rel = report_line root force fs rel').
    { revert Hout. unfold main_output. fold root.
      rewrite !elem_of_app. intros [H|[H|[H|[H|H]]]].
      - destruct Hs. in_messages H.
      - apply list_elem_of_fmap in H as (d & H & _). symmetry in H.
        by apply dir_line_not_skip in H.
      - destruct Hs. in_messages H.
      - apply list_elem_of_fmap in H as ([r c] & H & _). by exists r.
      - do 2 (apply elem_of_cons in H as [H|H];
                [destruct Hs; rewrite H; unfold messages; by repeat constructor|]).
        apply elem_of_cons in H as [H|H]; [by exists "package.json"|].
        destruct Hs. in_messages H. }
    destruct Hrep as (rel' & Hrep). unfold report_line in Hrep.
    destruct (bool_decide (is_Some (fs !! (root // rel'))) && negb force) eqn:Eb;
      [|by apply skip_line_not_write in Hrep].
    apply skip_line_inj in Hrep as <-.
    apply andb_true_iff in Eb as [Hex%bool_decide_eq_true Hf%negb_true_iff].
    split; [done|]. split; [done|]. subst force.
    destruct Hex as [n Hn]. rewrite Hn.
    apply (effect_skip_keeps root fs); [apply scaffold_effect|done].
Qed.

(** The run with [--force] on the repository with a directory named
    [.gitignore] raises after it has printed the line of [docs]. *)
Lemma X12_witness :
  fs_after (main sample_script true gitignore_dir_fs) !! (sample_root // "docs") = Some Dir ∧
  res (main sample_script true gitignore_dir_fs) = Raised IsADirectoryError.
Proof.
  split; [|by vm_compute].
  apply (proj1 (X12_reports_are_true sample_script true gitignore_dir_fs "docs")).
  apply (bool_decide_unpack _). by vm_compute.
Defined.
